(** * A shallow embedding of the dynamic-chunking notebook [01_hnet.ipynb]

    Tensors are nested lists of reals: a [(B, L, D)] tensor is a
    [list (list (list R))] (batch, then positions, then features) and a
    [(B, L)] tensor a [list (list R)].  Python exceptions are values of
    [exn], and every function that can raise returns a [result].
    Arithmetic is exact real arithmetic: the float32 rounding of PyTorch
    is not modelled, so the values computed here are the ideal ones. *)

From Stdlib Require Import String.
From Stdlib Require Import List Arith Lia Reals Lra.
Import ListNotations.
Open Scope bool_scope.
Open Scope R_scope.

(** ** Exceptions and the result monad *)

(** The exceptions the notebook's code can raise.  [IndexError i n] is
    PyTorch's "index i is out of bounds for dimension with size n". *)
Inductive exn : Type :=
| IndexError (index size : nat)
| MaskIndexError (* IndexError: the shape of the mask does not match *)
| ValueError
| NameError (name : string)
| RuntimeError.

Inductive result (A : Type) : Type :=
| Ok (a : A)
| Raise (e : exn).
Arguments Ok {A} a.
Arguments Raise {A} e.

Definition bind {A B} (m : result A) (f : A -> result B) : result B :=
  match m with
  | Ok a => f a
  | Raise e => Raise e
  end.

Notation "x <- m ;; k" := (bind m (fun x => k))
  (at level 61, m at next level, right associativity).

(** [for] over a list, stopping at the first exception. *)
Fixpoint mapM {A B} (f : A -> result B) (l : list A) : result (list B) :=
  match l with
  | [] => Ok []
  | x :: l' => y <- f x ;; ys <- mapM f l' ;; Ok (y :: ys)
  end.

(** [for i in range(n)] with the index available to the body. *)
Fixpoint mapiM_from {A B} (f : nat -> A -> result B) (i : nat) (l : list A)
  : result (list B) :=
  match l with
  | [] => Ok []
  | x :: l' => y <- f i x ;; ys <- mapiM_from f (S i) l' ;; Ok (y :: ys)
  end.

(** ** Tensors *)

Definition vec := list R.
Definition tensor2 := list vec.
Definition tensor3 := list (list vec).

(** [t[i]] along a dimension of size [length t]. *)
Definition getitem {A} (t : list A) (i : nat) : result A :=
  match nth_error t i with
  | Some a => Ok a
  | None => Raise (IndexError i (length t))
  end.

(** The two-index read [T[b, t]] of a 2-D tensor. *)
Definition getitem2 (T : list vec) (b t : nat) : result R :=
  row <- getitem T b ;; getitem row t.

(** Float equality [x == y] and truth value [bool(x)] of a scalar. *)
Definition Reqb (x y : R) : bool := if Req_EM_T x y then true else false.
Definition Rnonzero (x : R) : bool := negb (Reqb x 0).

Definition zeros (n : nat) : vec := repeat 0 n.
Definition vscale (a : R) (v : vec) : vec := map (Rmult a) v.
Definition vadd (u v : vec) : vec := map (fun xy => fst xy + snd xy) (combine u v).

(** Writing a source row into a destination slot of width [D]
    ([z[i, t] = row]): PyTorch broadcasts a row of width [1], accepts a
    row of width [D] and raises otherwise. *)
Definition setrow (D : nat) (row : vec) : result vec :=
  if Nat.eqb (length row) D then Ok row
  else match row with
       | [x] => Ok (repeat x D)
       | _ => Raise RuntimeError
       end.

(** ** Upsampler ([upsample]) *)

(** The inner loop of [upsample] for one batch element:
<<
        chunk_idx = 0
        for t in range(original_L):
            z[i, t] = bar_z[i, chunk_idx]
            if b[i, t] == 1 and t < original_L - 1:
                chunk_idx += 1
>>
    [bar] is [bar_z[i]]; [n] positions remain, [t] is the current
    position.  [b[i, t]] is read after the write, at each position. *)
Fixpoint upsample_loop (bar : list vec) (b : tensor2) (i original_L D : nat)
    (t chunk_idx n : nat) : result (list vec) :=
  match n with
  | O => Ok []
  | S n' =>
      row <- getitem bar chunk_idx ;;
      zt <- setrow D row ;;
      bt <- getitem2 b i t ;;
      let chunk_idx' :=
        if Reqb bt 1 && Nat.ltb t (original_L - 1) then S chunk_idx
        else chunk_idx in
      rest <- upsample_loop bar b i original_L D (S t) chunk_idx' n' ;;
      Ok (zt :: rest)
  end.

Definition upsample_row (bar : list vec) (b : tensor2) (i original_L D : nat)
  : result (list vec) :=
  upsample_loop bar b i original_L D 0 0 original_L.

(** The confidence [c] of [upsample]:
<<
    c = p.clone()
    c[b == 1] = p[b == 1]
    c[b == 0] = 1 - p[b == 0]
>>
    The boolean masks must have the shape of [p]. *)
Definition conf_entry (bt pt : R) : R :=
  if Reqb bt 1 then pt else if Reqb bt 0 then 1 - pt else pt.

Definition confidence (b p : tensor2) : result tensor2 :=
  if Nat.eqb (length b) (length p)
     && forallb (fun rows => Nat.eqb (length (fst rows)) (length (snd rows)))
          (combine b p)
  then Ok (map (fun rows => map (fun xy => conf_entry (fst xy) (snd xy))
                                (combine (fst rows) (snd rows)))
               (combine b p))
  else Raise MaskIndexError.

(** [upsample(bar_z, b, p, original_L, D)]: the batch loop runs over
    [range(bar_z.shape[0])]; [c] is computed and then not used. *)
Definition upsample (bar_z : tensor3) (b p : tensor2) (original_L D : nat)
  : result tensor3 :=
  z <- mapiM_from (fun i bar => upsample_row bar b i original_L D) 0 bar_z ;;
  _c <- confidence b p ;;
  Ok z.

(** ** Downsampler ([downsample]) *)

(** [mask[i].nonzero().squeeze(-1)] with [mask = b.bool()]: the positions
    of a row of [b] holding a non-zero value, in increasing order. *)
Fixpoint nonzero_from (t : nat) (brow : vec) : list nat :=
  match brow with
  | [] => []
  | x :: brow' =>
      if Rnonzero x then t :: nonzero_from (S t) brow'
      else nonzero_from (S t) brow'
  end.

Definition nonzero (brow : vec) : list nat := nonzero_from 0 brow.

(** Advanced indexing [row[idx]] with an index list. *)
Definition gather {A} (row : list A) (idx : list nat) : result (list A) :=
  mapM (getitem row) idx.

(** The feature dimension [x.shape[2]] of a [(B, L, D)] tensor. *)
Definition feat_dim (x : tensor3) : nat :=
  match x with
  | (r :: _) :: _ => length r
  | _ => 0
  end.

(** The length [x.shape[1]] of a [(B, L, D)] tensor. *)
Definition seq_len (x : tensor3) : nat :=
  match x with
  | r :: _ => length r
  | [] => 0
  end.

(** [max(len(x) for x in x_next)]: [max] of an empty sequence raises. *)
Definition max_len (l : list nat) : result nat :=
  match l with
  | [] => Raise ValueError
  | n :: l' => Ok (fold_left Nat.max l' n)
  end.

(** [F.pad(x, (0, 0, 0, k))] and [F.pad(P, (0, k))]: zero rows (zero
    entries) appended at the end. *)
Definition pad_rows (D k : nat) (x : list vec) : list vec := x ++ repeat (zeros D) k.
Definition pad_entries (k : nat) (P : vec) : vec := P ++ repeat 0 k.

(** One iteration of the batch loop of [downsample]. *)
Definition select_row (x_hat : tensor3) (b p : tensor2) (i : nat)
  : result (list vec * vec) :=
  mrow <- getitem b i ;;
  let idx := nonzero mrow in
  xrow <- getitem x_hat i ;;
  xs <- gather xrow idx ;;
  prow <- getitem p i ;;
  ps <- gather prow idx ;;
  Ok (xs, ps).

(** [downsample(x_hat, b, p)]: returns the pair
    [(x_next_padded, P_next_padded)]. *)
Definition downsample (x_hat : tensor3) (b p : tensor2) : result (tensor3 * tensor2) :=
  sel <- mapM (select_row x_hat b p) (seq 0 (length x_hat)) ;;
  let x_next := map fst sel in
  let P_next := map snd sel in
  m <- max_len (map (@length vec) x_next) ;;
  Ok (map (fun x => pad_rows (feat_dim x_hat) (m - length x) x) x_next,
      map (fun P => pad_entries (m - length P) P) P_next).

(** ** Smoother ([smoothing_module]) *)

(** The inner loop
<<
        for t in range(1, z_hat.shape[1]):
            bar_z[b, t] = P[b, t] * z_hat[b, t] + (1 - P[b, t]) * bar_z[b, t-1]
>>
    over the rows [zs] of [z_hat[b]] from position [t] on; [prev] is
    [bar_z[b, t-1]]. *)
Fixpoint smooth_loop (P : tensor2) (bi : nat) (zs : list vec) (t : nat) (prev : vec)
  : result (list vec) :=
  match zs with
  | [] => Ok []
  | zt :: zs' =>
      pt <- getitem2 P bi t ;;
      let v := vadd (vscale pt zt) (vscale (1 - pt) prev) in
      rest <- smooth_loop P bi zs' (S t) v ;;
      Ok (v :: rest)
  end.

(** [bar_z[b, 0] = z_hat[b, 0]] followed by the inner loop. *)
Definition smooth_row (P : tensor2) (bi : nat) (zrow : list vec) : result (list vec) :=
  z0 <- getitem zrow 0 ;;
  rest <- smooth_loop P bi (tl zrow) 1 z0 ;;
  Ok (z0 :: rest).

(** [smoothing_module(z_hat, P)]. *)
Definition smoothing_module (z_hat : tensor3) (P : tensor2) : result tensor3 :=
  mapiM_from (smooth_row P) 0 z_hat.

(** ** Linear layers *)

Definition dot (u v : vec) : R := fold_right Rplus 0 (map (fun xy => fst xy * snd xy) (combine u v)).
Definition sumsq (u : vec) : R := fold_right Rplus 0 (map (fun x => x * x) u).

(** [torch.norm(v, dim=-1)]. *)
Definition norm (u : vec) : R := sqrt (sumsq u).

(** [nn.Linear]: [weight] has shape [(out_features, in_features)]. *)
Record Linear : Type := mkLinear {
  weight : list vec;
  bias : option vec
}.

Definition in_features (l : Linear) : nat :=
  match weight l with
  | w :: _ => length w
  | [] => 0
  end.

(** [y = x W^T (+ bias)] on one feature vector; an input of another width
    raises. *)
Definition linear_vec (l : Linear) (x : vec) : result vec :=
  if Nat.eqb (length x) (in_features l) then
    let y := map (fun w => dot w x) (weight l) in
    match bias l with
    | Some bv => Ok (vadd y bv)
    | None => Ok y
    end
  else Raise RuntimeError.

Definition linear3 (l : Linear) (x : tensor3) : result tensor3 :=
  mapM (mapM (linear_vec l)) x.

(** ** Router ([SimilarityRouter.forward]) *)

Record SimilarityRouter : Type := mkRouter {
  W_q : Linear;
  W_k : Linear
}.

(** The stabiliser added to each norm: [1e-8]. *)
Definition eps : R := / 100000000.

(** [k_shifted = torch.cat([k[:, :1, :], k[:, :-1, :]], dim=1)] on one row. *)
Definition shift_row (krow : list vec) : list vec := firstn 1 krow ++ removelast krow.

(** For one position:
<<
        dot = torch.sum(q * k_shifted, dim=-1)
        norm_q = torch.norm(q, dim=-1) + 1e-8
        norm_k = torch.norm(k_shifted, dim=-1) + 1e-8
        cos_sim = dot / (norm_q * norm_k)
        p = 0.5 * (1 - cos_sim)
>> *)
Definition cos_sim (qt kt : vec) : R :=
  let norm_q := norm qt + eps in
  let norm_k := norm kt + eps in
  dot qt kt / (norm_q * norm_k).

Definition p_entry (qt kt : vec) : R := 1 / 2 * (1 - cos_sim qt kt).

(** [p[:, 0] = 1.0] on one row: position 0 must exist. *)
Definition force_first (prow : vec) : result vec :=
  match prow with
  | [] => Raise (IndexError 0 0)
  | _ :: r => Ok (1 :: r)
  end.

(** [b = (p >= 0.5).float()]. *)
Definition threshold (x : R) : R := if Rle_dec (1 / 2) x then 1 else 0.

Definition router_forward (r : SimilarityRouter) (x_hat : tensor3) : result (tensor2 * tensor2) :=
  q <- linear3 (W_q r) x_hat ;;
  k <- linear3 (W_k r) x_hat ;;
  let k_shifted := map shift_row k in
  let p0 := map (fun rows => map (fun qk => p_entry (fst qk) (snd qk))
                                 (combine (fst rows) (snd rows)))
                (combine q k_shifted) in
  p <- mapM force_first p0 ;;
  let b := map (map threshold) p in
  Ok (p, b).

(** ** The model ([HNet.forward]) *)

Record HNet : Type := mkHNet {
  num_stages : nat;
  router : SimilarityRouter;
  encoder : Linear;
  main : Linear;
  decoder : Linear;
  linear_skip : Linear
}.

(** [z_s += skip]: both operands have one shape. *)
Definition add3 (a c : tensor3) : result tensor3 :=
  if Nat.eqb (length a) (length c)
     && forallb (fun rs => Nat.eqb (length (fst rs)) (length (snd rs))
                   && forallb (fun vs => Nat.eqb (length (fst vs)) (length (snd vs)))
                        (combine (fst rs) (snd rs)))
          (combine a c)
  then Ok (map (fun rs => map (fun vs => vadd (fst vs) (snd vs)) (combine (fst rs) (snd rs)))
               (combine a c))
  else Raise RuntimeError.

(** The smoothing functions bound at module level in the notebook: only
    [smoothing_module].  Calling any other name raises [NameError]. *)
Definition resolve_smoother (name : string) : result (tensor3 -> tensor2 -> result tensor3) :=
  if String.eqb name "smoothing_module" then Ok smoothing_module
  else Raise (NameError name).

(** One compression iteration:
<<
            x_hat = self.encoder(xs[-1])
            p, b = self.router(x_hat)
            x_next, P_next = downsample(x_hat, b, p)
            xs.append(x_next)
            ps.append((p, b, P_next))
>>
    [n] iterations remain. *)
Fixpoint compress (h : HNet) (n : nat) (xs : list tensor3)
    (ps : list (tensor2 * tensor2 * tensor2)) : result (list tensor3 * list (tensor2 * tensor2 * tensor2)) :=
  match n with
  | O => Ok (xs, ps)
  | S n' =>
      x_hat <- linear3 (encoder h) (last xs []) ;;
      pb <- router_forward (router h) x_hat ;;
      let (p, b) := pb in
      xP <- downsample x_hat b p ;;
      let (x_next, P_next) := xP in
      compress h n' (xs ++ [x_next]) (ps ++ [(p, b, P_next)])
  end.

(** One decompression iteration, for the stages [s] listed in
    [reversed(range(self.num_stages))]:
<<
            bar_z = ema_smooth(zs[-1], ps[s][2])  # P_next
            z_s = upsample(bar_z, ps[s][1], ps[s][0], xs[s].shape[1], xs[s].shape[2])
            z_s += self.linear_skip(self.encoder(xs[s]))  # Skip connection
            z_hat_s = self.decoder(z_s)
            zs.append(z_hat_s)
>> *)
Fixpoint decompress (h : HNet) (stages : list nat) (xs : list tensor3)
    (ps : list (tensor2 * tensor2 * tensor2)) (zs : list tensor3) : result (list tensor3) :=
  match stages with
  | [] => Ok zs
  | s :: stages' =>
      smooth <- resolve_smoother "ema_smooth" ;;
      pbP <- getitem ps s ;;
      let '(p, b, P_next) := pbP in
      bar_z <- smooth (last zs []) P_next ;;
      xs_s <- getitem xs s ;;
      z_s <- upsample bar_z b p (seq_len xs_s) (feat_dim xs_s) ;;
      e <- linear3 (encoder h) xs_s ;;
      skip <- linear3 (linear_skip h) e ;;
      z_s' <- add3 z_s skip ;;
      z_hat_s <- linear3 (decoder h) z_s' ;;
      decompress h stages' xs ps (zs ++ [z_hat_s])
  end.

(** [HNet.forward(x0)]: returns [zs[-1]]. *)
Definition forward (h : HNet) (x0 : tensor3) : result tensor3 :=
  xps <- compress h (num_stages h) [x0] [] ;;
  let (xs, ps) := xps in
  z_hat_S <- linear3 (main h) (last xs []) ;;
  zs <- decompress h (rev (seq 0 (num_stages h))) xs ps [z_hat_S] ;;
  Ok (last zs []).

(** ** Chunk indices *)

(** The number of entries equal to [1] in a row of [b]. *)
Definition count_ones (l : vec) : nat := length (filter (fun x => Reqb x 1) l).

(** The value of [chunk_idx] when [upsample]'s inner loop reaches
    position [t] (for [t < original_L]): the number of boundaries strictly
    before [t]. *)
Definition code_chunk_index (brow : vec) (t : nat) : nat := count_ones (firstn t brow).

(** The chunk index of the spec, for a 0/1 indicator row:
    [idx(t) = (prefix-sum of b over positions 0..t) - 1]. *)
Definition spec_chunk_index (brow : vec) (t : nat) : nat := count_ones (firstn (S t) brow) - 1.

(** ** Stage round trip *)

(** [Upsampler(Smoother(Downsampler(x_hat)))] for one stage, chained as
    [HNet.forward] chains them, with [smoothing_module] as the smoother and
    no inner model in between. *)
Definition stage_roundtrip (x_hat : tensor3) (b p : tensor2) : result tensor3 :=
  xP <- downsample x_hat b p ;;
  let (x_next, P_next) := xP in
  bar_z <- smoothing_module x_next P_next ;;
  upsample bar_z b p (seq_len x_hat) (feat_dim x_hat).

(** ** Concrete inputs *)

(** Scenario A: a single batch element of length 4 with
    [b = [1,0,1,0]], [p = [1.0, 0.2, 0.7, 0.3]]. *)
Definition xA : tensor3 := [[[1];[2];[3];[4]]]%R.
Definition bA : tensor2 := [[1;0;1;0]]%R.
Definition pA : tensor2 := [[1;2/10;7/10;3/10]]%R.


(** A batch of two after [downsample]: element 0 has one chunk and one
    padding slot (zero row, zero probability), element 1 has two chunks. *)
Definition zC5 : tensor3 := [[[1];[0]]; [[1];[1]]]%R.
Definition PC5 : tensor2 := [[1;0]; [1;1]]%R.

(** Two equal positions of width 1. *)
Definition x2 : tensor3 := [[[1];[1]]]%R.

(** A single position of width 1. *)
Definition x1 : tensor3 := [[[1]]]%R.

(** A one-stage model of width 1: identity projections, zero biases. *)
Definition id1 : Linear := mkLinear [[1]]%R (Some [0]%R).
Definition router1 : SimilarityRouter := mkRouter (mkLinear [[1]]%R None) (mkLinear [[1]]%R None).
Definition hnet1 : HNet := mkHNet 1 router1 id1 id1 id1 id1.

(** ** Theorems *)

(** *** Evaluating scalar tests on concrete inputs *)

Lemma Reqb_true x y : x = y -> Reqb x y = true.
Proof. intros ->. unfold Reqb. destruct (Req_EM_T y y); congruence. Qed.

Lemma Reqb_false x y : x <> y -> Reqb x y = false.
Proof. intros H. unfold Reqb. destruct (Req_EM_T x y); congruence. Qed.

Lemma threshold_ge x : 1 / 2 <= x -> threshold x = 1.
Proof. unfold threshold. destruct (Rle_dec (1 / 2) x); [reflexivity | contradiction]. Qed.

Lemma threshold_lt x : x < 1 / 2 -> threshold x = 0.
Proof. unfold threshold. destruct (Rle_dec (1 / 2) x); [lra | reflexivity]. Qed.

Ltac rdecide :=
  repeat (cbn; match goal with
  | |- context [Reqb ?x ?y] =>
      first [rewrite (Reqb_true x y) by lra | rewrite (Reqb_false x y) by lra]
  | |- context [Rnonzero ?x] => unfold Rnonzero
  | |- context [threshold ?x] =>
      first [rewrite (threshold_ge x) by lra | rewrite (threshold_lt x) by lra]
  end); cbn.

Open Scope nat_scope.

(** *** Lists and the result monad *)

Lemma getitem_Ok {A} (l : list A) i a : getitem l i = Ok a <-> nth_error l i = Some a.
Proof.
  unfold getitem. destruct (nth_error l i); split; intro H; congruence.
Qed.

Lemma getitem_in_range {A} (l : list A) i : i < length l -> exists a, getitem l i = Ok a.
Proof.
  intros H. destruct (nth_error l i) as [a|] eqn:E.
  - exists a. now apply getitem_Ok.
  - apply nth_error_None in E. lia.
Qed.

Lemma getitem2_Ok P bi t x :
  getitem2 P bi t = Ok x <-> exists Prow : vec, nth_error P bi = Some Prow /\ nth_error Prow t = Some x.
Proof.
  unfold getitem2. destruct (nth_error P bi) as [Prow|] eqn:EP.
  - rewrite (proj2 (getitem_Ok P bi Prow) EP). cbn [bind]. rewrite getitem_Ok. split.
    + intros Ht. exists Prow. auto.
    + intros (Prow' & E & Ht). injection E as <-. exact Ht.
  - assert (E : getitem P bi = Raise (IndexError bi (length P))) by (unfold getitem; rewrite EP; reflexivity).
    rewrite E. cbn [bind]. split; [discriminate|]. intros (Prow' & E' & _). discriminate.
Qed.

Lemma getitem2_row (b : tensor2) i (brow : vec) t :
  nth_error b i = Some brow -> getitem2 b i t = getitem brow t.
Proof. intros H. unfold getitem2. rewrite (proj2 (getitem_Ok b i brow) H). reflexivity. Qed.

Lemma getitem2_None (b : tensor2) i t :
  nth_error b i = None -> getitem2 b i t = Raise (IndexError i (length b)).
Proof. intros H. unfold getitem2, getitem at 1. rewrite H. reflexivity. Qed.

Lemma skipn_nth_error {A} (l : list A) t x :
  nth_error l t = Some x -> skipn t l = x :: skipn (S t) l.
Proof.
  revert t. induction l as [|y l IH]; intros [|t] H; simpl in *; try discriminate.
  - now injection H as ->.
  - now apply IH.
Qed.

Lemma mapiM_from_Ok {A B} (f : nat -> A -> result B) l : forall i ys,
  mapiM_from f i l = Ok ys ->
  forall k x, nth_error l k = Some x -> exists y, f (i + k) x = Ok y /\ nth_error ys k = Some y.
Proof.
  induction l as [|a l IH]; intros i ys H k x Hk; [destruct k; discriminate|].
  simpl in H. destruct (f i a) as [y|e] eqn:Ef; [|discriminate]. simpl in H.
  destruct (mapiM_from f (S i) l) as [ys'|e] eqn:Er; [|discriminate].
  simpl in H. injection H as <-. destruct k as [|k]; simpl in Hk.
  - injection Hk as <-. exists y. rewrite Nat.add_0_r. auto.
  - destruct (IH (S i) ys' Er k x Hk) as [y' [Hy' Hn]]. exists y'.
    rewrite Nat.add_succ_r. auto.
Qed.

Lemma mapiM_from_Raise {A B} (f : nat -> A -> result B) l : forall i e,
  mapiM_from f i l = Raise e -> exists k x, nth_error l k = Some x /\ f (i + k) x = Raise e.
Proof.
  induction l as [|a l IH]; intros i e H; [discriminate|].
  simpl in H. destruct (f i a) as [y|e'] eqn:Ef; simpl in H.
  - destruct (mapiM_from f (S i) l) as [ys'|e'] eqn:Er; simpl in H; [discriminate|].
    injection H as ->. destruct (IH (S i) e Er) as [k [x [Hk Hf]]].
    exists (S k), x. rewrite Nat.add_succ_r. auto.
  - injection H as ->. exists 0, a. rewrite Nat.add_0_r. auto.
Qed.

(** *** The inner loop of [upsample] *)

Lemma setrow_width D row : length row = D -> setrow D row = Ok row.
Proof. intros H. unfold setrow. now rewrite H, Nat.eqb_refl. Qed.

Section UpsampleLoop.
  Variables (bar : list vec) (b : tensor2) (i : nat) (brow : vec) (original_L D : nat).
  Hypothesis bar_width : forall row, In row bar -> length row = D.
  Hypothesis b_row : nth_error b i = Some brow.
  Hypothesis brow_long : original_L <= length brow.

  (** From position [t] with counter [c], the loop either returns one row
      per remaining position, the row read being [bar] at [c] plus the
      number of boundaries met since [t], or it raises the raw
      [IndexError] of [bar_z[i, chunk_idx]] once that counter reaches the
      compressed length. *)
Lemma upsample_loop_char : forall n t c,
    t + n <= original_L -> c <= length bar ->
    match upsample_loop bar b i original_L D t c n with
    | Ok z => length z = n /\ forall j, j < n ->
        c + count_ones (firstn j (skipn t brow)) < length bar /\
        nth_error z j = nth_error bar (c + count_ones (firstn j (skipn t brow)))
    | Raise e => e = IndexError (length bar) (length bar) /\
        exists j, j < n /\ c + count_ones (firstn j (skipn t brow)) = length bar
    end.
  Proof.
    induction n as [|n IH]; intros t c Htn Hc; simpl.
    - split; [reflexivity | intros; lia].
    - unfold getitem at 1. destruct (nth_error bar c) as [row|] eqn:Ebar.
      2:{ apply nth_error_None in Ebar. assert (c = length bar) as -> by lia.
          simpl. split; [reflexivity|]. exists 0. split; [lia|].
          unfold count_ones. simpl. lia. }
      assert (Hcl : c < length bar) by (apply nth_error_Some; congruence).
      assert (Hrow : length row = D) by (apply bar_width; eapply nth_error_In; eauto).
      cbn [bind]. rewrite (setrow_width D row Hrow). cbn [bind].
      destruct (nth_error brow t) as [bt|] eqn:Eb.
      2:{ apply nth_error_None in Eb. lia. }
      assert (Hsk := skipn_nth_error brow t bt Eb).
      assert (Hg : getitem2 b i t = Ok bt)
        by (rewrite (getitem2_row b i brow t b_row); apply getitem_Ok; exact Eb).
      rewrite Hg. cbn [bind].
      destruct n as [|n'].
      + simpl. split; [reflexivity|]. intros j Hj.
        assert (j = 0) as -> by lia. simpl. rewrite Nat.add_0_r.
        split; [exact Hcl | symmetry; exact Ebar].
      + assert (Hguard : Nat.ltb t (original_L - 1) = true) by (apply Nat.ltb_lt; lia).
        rewrite Hguard, Bool.andb_true_r.
        set (c' := if Reqb bt 1 then S c else c).
        assert (Hc' : c' <= length bar) by (unfold c'; destruct (Reqb bt 1); lia).
        assert (Hstep : forall j, c + count_ones (firstn (S j) (skipn t brow)) =
                                  c' + count_ones (firstn j (skipn (S t) brow))).
        { intros j. rewrite Hsk. simpl. unfold count_ones, c'. simpl.
          destruct (Reqb bt 1); simpl; lia. }
        specialize (IH (S t) c' ltac:(lia) Hc').
        change (if Reqb bt 1 then S c else c) with c'.
        destruct (upsample_loop bar b i original_L D (S t) c' (S n')) as [z'|e] eqn:Erest.
        * simpl. destruct IH as [Hlen Hj]. split; [simpl; lia|].
          intros [|j] Hjlt.
          -- unfold count_ones. simpl. rewrite Nat.add_0_r. split; [exact Hcl | symmetry; exact Ebar].
          -- rewrite Hstep. simpl. apply Hj. lia.
        * simpl. destruct IH as [He [j [Hj Hjeq]]]. split; [exact He|].
          exists (S j). split; [lia|]. rewrite Hstep. exact Hjeq.
  Qed.
End UpsampleLoop.

Lemma count_ones_all_ones (brow : vec) t :
  (forall k, k < t -> nth_error brow k = Some 1%R) -> count_ones (firstn t brow) = t.
Proof.
  revert brow. induction t as [|t IH]; intros brow H; [reflexivity|].
  destruct brow as [|x brow].
  - specialize (H 0 ltac:(lia)). discriminate.
  - assert (x = 1%R) as -> by (specialize (H 0 ltac:(lia)); simpl in H; congruence).
    unfold count_ones in *. simpl. rewrite (Reqb_true 1 1) by reflexivity. simpl.
    f_equal. apply IH. intros k Hk. apply (H (S k)). lia.
Qed.

(** [upsample] succeeds exactly when every batch loop and the
    confidence step do. *)
Lemma upsample_Ok_rows bar_z b p L D z :
  upsample bar_z b p L D = Ok z ->
  forall i bar, nth_error bar_z i = Some bar ->
  exists zi, nth_error z i = Some zi /\ upsample_row bar b i L D = Ok zi.
Proof.
  unfold upsample. intros H i bar Hi.
  destruct (mapiM_from _ 0 bar_z) as [z'|e] eqn:E; [|discriminate]. simpl in H.
  destruct (confidence b p) as [c|e]; [|discriminate]. simpl in H. injection H as <-.
  destruct (mapiM_from_Ok _ _ 0 z' E i bar Hi) as [zi [Hf Hz]]. simpl in Hf.
  exists zi. auto.
Qed.

Lemma confidence_Raise b p e : confidence b p = Raise e -> e = MaskIndexError.
Proof. unfold confidence. destruct (_ && _); congruence. Qed.

(** ** C1 *)

(** C1 (code_bug), Scenario A.  [downsample] selects the two chunks of
    positions 0 and 2; the spec assigns position 3 to chunk
    [idx(3) = 1], but [upsample]'s counter has already advanced to 2 there
    (it counts the boundaries before [t], not up to [t], minus one), so
    reading [bar_z[0, 2]] raises [IndexError 2 2] instead of returning an
    output of length 4. *)
Theorem upsample_scenario_A_overruns :
  downsample xA bA pA = Ok ([[[1];[3]]]%R, [[1;7/10]]%R) /\
  spec_chunk_index (hd [] bA) 3 = 1 /\ code_chunk_index (hd [] bA) 3 = 2 /\
  upsample [[[1];[3]]]%R bA pA 4 1 = Raise (IndexError 2 2).
Proof.
  unfold downsample, xA, bA, pA, spec_chunk_index, code_chunk_index, count_ones,
    upsample, upsample_row, select_row, gather, nonzero, Rnonzero, max_len.
  rdecide. repeat split; reflexivity.
Qed.

(** ** C2 *)

(** C2, counterexample.  One batch element whose compressed sequence has
    a single chunk (ValidLength 1) and [b = [1, 1]]: position 1 has
    [idx(1) = 1 >= 1], and [upsample] fails with the raw
    [IndexError 1 1] of [bar_z[0, 1]], not with a checked fault naming
    stage, batch index and position. *)
Lemma upsample_overrun_raw_IndexError :
  length [[5%R]] <= spec_chunk_index [1;1]%R 1 /\
  upsample [[[5]]]%R [[1;1]]%R [[1;9/10]]%R 2 1 = Raise (IndexError 1 1).
Proof.
  unfold spec_chunk_index, count_ones, upsample, upsample_row.
  rdecide. split; [lia | reflexivity].
Qed.

(** The spec's index never exceeds the code's counter:
    [prefix-sum(0..t) - 1 <= (number of boundaries before t)]. *)
Lemma count_ones_firstn_S (brow : vec) t :
  count_ones (firstn (S t) brow) <= S (count_ones (firstn t brow)).
Proof.
  revert t. induction brow as [|x brow IH]; intros [|t]; unfold count_ones in *.
  - cbn. lia.
  - cbn. lia.
  - rewrite firstn_cons, firstn_O. cbn [filter]. destruct (Reqb x 1); cbn; lia.
  - rewrite !firstn_cons. cbn [filter]. specialize (IH t).
    destruct (Reqb x 1); cbn [length]; lia.
Qed.

Lemma spec_chunk_index_le_code (brow : vec) t : spec_chunk_index brow t <= code_chunk_index brow t.
Proof.
  unfold spec_chunk_index, code_chunk_index. pose proof (count_ones_firstn_S brow t). lia.
Qed.

(** C2, as the code has it.  [upsample] performs no check of its own: on
    input whose compressed rows have width [D] and whose rows of [b] cover
    [original_L] positions, whenever some position [t < original_L] of a
    batch element [i] has [idx(t) >= L'] (the spec's index, against the
    compressed length [L'] of [bar_z[i]]), the call raises; and every
    exception it raises is either the raw [IndexError(L', L')] of the read
    [bar_z[j, chunk_idx]] of some batch element [j], or the mask-shape
    [IndexError] of the confidence step. *)
Theorem upsample_overrun_raises_IndexError bar_z b p original_L D
  (Hwidth : forall i (bar : list vec), nth_error bar_z i = Some bar -> forall row, In row bar -> length row = D)
  (Hb : forall i, i < length bar_z -> exists brow : vec, nth_error b i = Some brow /\ original_L <= length brow) :
  ((exists i (bar : list vec) (brow : vec) t, nth_error bar_z i = Some bar /\ nth_error b i = Some brow /\
      t < original_L /\ length bar <= spec_chunk_index brow t) ->
   exists e, upsample bar_z b p original_L D = Raise e) /\
  (forall e, upsample bar_z b p original_L D = Raise e ->
   e = MaskIndexError \/
   exists j (bar : list vec), nth_error bar_z j = Some bar /\ e = IndexError (length bar) (length bar)).
Proof.
  split.
  - intros (i & bar & brow & t & Hi & Hbi & Ht & Hover).
    destruct (upsample bar_z b p original_L D) as [z|e] eqn:E; [|eauto].
    exfalso. destruct (upsample_Ok_rows _ _ _ _ _ _ E i bar Hi) as (zi & _ & Hrow).
    assert (Hlen : original_L <= length brow).
    { assert (i < length bar_z) by (apply nth_error_Some; congruence).
      destruct (Hb i H) as (brow'' & Hb'' & Hl). unfold vec in *. congruence. }
    pose proof (upsample_loop_char bar b i brow original_L D (Hwidth i bar Hi) Hbi Hlen
                  original_L 0 0 ltac:(lia) ltac:(lia)) as C.
    unfold upsample_row in Hrow. rewrite Hrow in C. destruct C as [_ C].
    destruct (C t Ht) as [C' _]. pose proof (spec_chunk_index_le_code brow t) as Hsc.
    unfold code_chunk_index in Hsc. simpl in C'. lia.
  - intros e E. unfold upsample in E.
    destruct (mapiM_from _ 0 bar_z) as [z|e'] eqn:Em.
    + simpl in E. destruct (confidence b p) as [c|e'] eqn:Ec; simpl in E; [discriminate|].
      injection E as ->. left. eapply confidence_Raise; eauto.
    + simpl in E. injection E as ->. right.
      destruct (mapiM_from_Raise _ _ 0 e Em) as (i & bar & Hi & Hf). simpl in Hf.
      assert (Hil : i < length bar_z) by (apply nth_error_Some; congruence).
      destruct (Hb i Hil) as (brow & Hbi & Hlen).
      pose proof (upsample_loop_char bar b i brow original_L D (Hwidth i bar Hi) Hbi Hlen
                    original_L 0 0 ltac:(lia) ltac:(lia)) as C.
      unfold upsample_row in Hf. rewrite Hf in C. destruct C as [He _].
      exists i, bar. auto.
Qed.

(** The hypotheses of [upsample_overrun_raises_IndexError] hold on two
    chunks and [b = [1, 1, 1]], where [idx(2) = 2] overruns. *)
Lemma upsample_overrun_raises_IndexError_witness :
  exists e, upsample [[[1];[3]]]%R [[1;1;1]]%R [[1;9/10;8/10]]%R 3 1 = Raise e.
Proof.
  refine (proj1 (upsample_overrun_raises_IndexError [[[1];[3]]]%R [[1;1;1]]%R [[1;9/10;8/10]]%R 3 1 _ _) _).
  - intros [|[|i]] bar Hi; simpl in Hi; try discriminate.
    injection Hi as <-. intros row Hr. simpl in Hr.
    destruct Hr as [<-|[<-|[]]]; reflexivity.
  - intros [|i] Hi; simpl in Hi; [|lia]. exists [1;1;1]%R. split; [reflexivity | simpl; lia].
  - exists 0, [[1];[3]]%R, [1;1;1]%R, 2. unfold spec_chunk_index, count_ones.
    rdecide. repeat split; lia.
Defined.

(** ** C4 *)

(** C4, counterexample.  On the all-boundary row [b = [1, 1]] with
    [p = [1.0, 0.6]], [upsample] returns the rows of [bar_z] unscaled:
    at position 1 it yields [[1]], while [c_1 * z_1 = 0.6 * [1] = [0.6]]. *)
Lemma upsample_not_confidence_scaled :
  upsample [[[1];[1]]]%R [[1;1]]%R [[1;6/10]]%R 2 1 = Ok [[[1];[1]]]%R /\
  vscale (conf_entry 1 (6/10)) [1%R] <> [1%R].
Proof.
  unfold upsample, upsample_row, confidence, vscale, conf_entry.
  rdecide. split; [reflexivity|].
  intros H. injection H as H. lra.
Qed.

Lemma upsample_loop_rows_In (bar : list vec) (b : tensor2) i L D
  (Hw : forall row, In row bar -> length row = D) :
  forall n t c z, upsample_loop bar b i L D t c n = Ok z -> forall row, In row z -> In row bar.
Proof.
  induction n as [|n IH]; intros t c z H; cbn [upsample_loop] in H.
  - injection H as <-. intros _ [].
  - destruct (getitem bar c) as [row|e] eqn:Eg; cbn [bind] in H; [|discriminate].
    apply getitem_Ok in Eg.
    rewrite (setrow_width D row (Hw row (nth_error_In _ _ Eg))) in H. cbn [bind] in H.
    destruct (getitem2 b i t) as [bt|e]; cbn [bind] in H; [|discriminate].
    cbv zeta in H.
    match type of H with context [upsample_loop ?a1 ?a2 ?a3 ?a4 ?a5 ?a6 ?a7 ?a8] =>
      destruct (upsample_loop a1 a2 a3 a4 a5 a6 a7 a8) as [rest|e] eqn:Er
    end; cbn [bind] in H; [|discriminate].
    injection H as <-. intros row' [<-|Hin]; [exact (nth_error_In _ _ Eg) | exact (IH _ _ _ Er row' Hin)].
Qed.

Lemma forallb_combine_shape_r (b p p' : tensor2) : length p = length p' ->
  (forall i (prow prow' : vec), nth_error p i = Some prow -> nth_error p' i = Some prow' ->
     length prow' = length prow) ->
  forallb (fun rows : vec * vec => Nat.eqb (length (fst rows)) (length (snd rows))) (combine b p) =
  forallb (fun rows : vec * vec => Nat.eqb (length (fst rows)) (length (snd rows))) (combine b p').
Proof.
  revert p p'. induction b as [|x b IH]; intros [|y p] [|y' p'] Hl Hr; simpl in *; try discriminate; try reflexivity.
  rewrite (Hr 0 y y' eq_refl eq_refl). f_equal. apply IH; [lia|]. intros i; apply (Hr (S i)).
Qed.

(** C4, as the code has it.  [upsample] applies no confidence scaling:
    [c] is computed and discarded.  Whenever [upsample] returns [z], the
    values of [p] do not matter (any [p'] of the shape of [p] gives the
    same [z]), every output row of element [i] is an unmodified row of
    [bar_z[i]] (when those rows have width [D]), and on an all-boundary
    row ([b[i, t] = 1] at every position) the output at [t] is the
    compressed row [bar_z[i, t]] itself. *)
Theorem upsample_raw_expansion bar_z b p original_L D z
  (Hup : upsample bar_z b p original_L D = Ok z) :
  (forall p' : tensor2, length p' = length p ->
     (forall i (prow prow' : vec), nth_error p i = Some prow -> nth_error p' i = Some prow' ->
        length prow' = length prow) ->
     upsample bar_z b p' original_L D = Ok z) /\
  (forall i (bar zi : list vec), nth_error bar_z i = Some bar -> nth_error z i = Some zi ->
     (forall row, In row bar -> length row = D) -> forall row, In row zi -> In row bar) /\
  (forall i (bar zi : list vec) (brow : vec), nth_error bar_z i = Some bar -> nth_error b i = Some brow ->
     nth_error z i = Some zi -> (forall row, In row bar -> length row = D) ->
     (forall k, k < original_L -> nth_error brow k = Some 1%R) ->
     forall t, t < original_L -> nth_error zi t = nth_error bar t).
Proof.
  split; [|split].
  - intros p' Hl Hr. unfold upsample in *.
    destruct (mapiM_from _ 0 bar_z) as [z'|e]; cbn [bind] in *; [|discriminate].
    unfold confidence in *.
    match goal with |- context [forallb ?f (combine b p')] =>
      replace (forallb f (combine b p')) with (forallb f (combine b p))
        by (exact (forallb_combine_shape_r b p p' (eq_sym Hl) Hr))
    end.
    rewrite Hl. destruct (_ && _); cbn [bind] in *; [exact Hup | discriminate].
  - intros i bar zi Hi Hz Hw row Hrow.
    destruct (upsample_Ok_rows _ _ _ _ _ _ Hup i bar Hi) as (zi' & Hz' & Hf).
    assert (zi' = zi) as -> by (unfold vec in *; congruence).
    exact (upsample_loop_rows_In bar b i original_L D Hw _ _ _ _ Hf row Hrow).
  - intros i bar zi brow Hi Hbi Hz Hw Hall t Ht.
    destruct (upsample_Ok_rows _ _ _ _ _ _ Hup i bar Hi) as (zi' & Hz' & Hrow).
    assert (zi' = zi) as -> by (unfold vec in *; congruence).
    assert (Hlen : original_L <= length brow).
    { destruct original_L as [|L']; [lia|]. pose proof (Hall L' ltac:(lia)) as Hk.
      assert (L' < length brow) by (apply nth_error_Some; rewrite Hk; discriminate). lia. }
    pose proof (upsample_loop_char bar b i brow original_L D Hw Hbi Hlen original_L 0 0
                  ltac:(lia) ltac:(lia)) as C.
    unfold upsample_row in Hrow. rewrite Hrow in C. destruct C as [_ C].
    destruct (C t Ht) as [_ Hnth]. simpl in Hnth. rewrite Hnth. f_equal.
    apply count_ones_all_ones. intros k Hk. apply Hall. lia.
Qed.

(** [upsample_raw_expansion] on an all-boundary row: changing [p] from
    [[1.0, 0.6]] to [[1.0, 0.9]] leaves the output unchanged. *)
Lemma upsample_raw_expansion_witness :
  upsample [[[1];[2]]]%R [[1;1]]%R [[1;9/10]]%R 2 1 = Ok [[[1];[2]]]%R.
Proof.
  refine (proj1 (upsample_raw_expansion [[[1];[2]]]%R [[1;1]]%R [[1;6/10]]%R 2 1 [[[1];[2]]]%R _)
            _ eq_refl _).
  - unfold upsample, upsample_row, confidence, conf_entry. rdecide. reflexivity.
  - intros [|[|i]] prow prow' Hp Hp'; simpl in Hp, Hp'; try discriminate.
    injection Hp as <-. injection Hp' as <-. reflexivity.
Defined.

(** ** C9 *)

Lemma in_combine_nth {A B} (l1 : list A) (l2 : list B) x y :
  In (x, y) (combine l1 l2) -> exists i, nth_error l1 i = Some x /\ nth_error l2 i = Some y.
Proof.
  revert l2. induction l1 as [|a l1 IH]; intros [|c l2] H; simpl in H; try contradiction.
  destruct H as [H|H].
  - injection H as -> ->. exists 0. auto.
  - destruct (IH l2 H) as [i Hi]. exists (S i). exact Hi.
Qed.




(** ** C3 *)

Lemma mapM_Ok {A B} (f : A -> result B) l : forall ys,
  mapM f l = Ok ys ->
  length ys = length l /\
  forall k x, nth_error l k = Some x -> exists y, f x = Ok y /\ nth_error ys k = Some y.
Proof.
  induction l as [|a l IH]; intros ys H.
  - simpl in H. injection H as <-. split; [reflexivity|]. intros [|k]; discriminate.
  - simpl in H. destruct (f a) as [y|e] eqn:Ef; [|discriminate]. simpl in H.
    destruct (mapM f l) as [ys'|e] eqn:Er; [|discriminate]. simpl in H. injection H as <-.
    destruct (IH ys' eq_refl) as [Hl Hn]. split; [simpl; lia|].
    intros [|k] x Hk; simpl in Hk.
    + injection Hk as <-. exists y. auto.
    + apply Hn. exact Hk.
Qed.

Lemma fold_left_max_ge (l : list nat) n : n <= fold_left Nat.max l n /\
  forall k, In k l -> k <= fold_left Nat.max l n.
Proof.
  revert n. induction l as [|a l IH]; intros n; simpl.
  - split; [lia | contradiction].
  - destruct (IH (Nat.max n a)) as [H1 H2]. split; [lia|].
    intros k [<-|Hk]; [lia | auto].
Qed.

Lemma max_len_ge (l : list nat) m : max_len l = Ok m -> forall k, In k l -> k <= m.
Proof.
  destruct l as [|n l]; simpl; intros H; [discriminate|]. injection H as <-.
  destruct (fold_left_max_ge l n) as [H1 H2]. intros k [<-|Hk]; auto.
Qed.





(** ** C5 *)

Lemma smooth_loop_Ok P bi zs : forall t prev rest,
  smooth_loop P bi zs t prev = Ok rest ->
  length rest = length zs /\
  forall j zj, nth_error zs j = Some zj ->
    exists pj, getitem2 P bi (t + j) = Ok pj /\
      nth_error rest j = Some (vadd (vscale pj zj) (vscale (1 - pj) (nth j (prev :: rest) []))).
Proof.
  induction zs as [|z zs IH]; intros t prev rest H; simpl in H.
  - injection H as <-. split; [reflexivity|]. intros [|j]; discriminate.
  - destruct (getitem2 P bi t) as [pt|e] eqn:Ep; [|discriminate]. cbn [bind] in H.
    destruct (smooth_loop P bi zs (S t) _) as [rest'|e] eqn:Er; [|discriminate].
    cbn [bind] in H. injection H as <-.
    destruct (IH _ _ _ Er) as [Hl Hn]. split; [simpl; lia|].
    intros [|j] zj Hj; simpl in Hj.
    + injection Hj as <-. exists pt. rewrite Nat.add_0_r. auto.
    + destruct (Hn j zj Hj) as [pj [Hp Hr]]. exists pj.
      rewrite Nat.add_succ_r. split; [exact Hp|]. exact Hr.
Qed.

Lemma vadd_scale_zero (zt prev : vec) : length zt = length prev ->
  forall k, nth k (vadd (vscale 0 zt) (vscale (1 - 0) prev)) 0%R = nth k prev 0%R.
Proof.
  revert prev. induction zt as [|a zt IH]; intros [|c prev] Hlen k; try discriminate.
  - destruct k; reflexivity.
  - simpl in Hlen. destruct k as [|k]; unfold vadd, vscale in *; simpl; [lra|].
    apply IH. lia.
Qed.

(** C5, counterexample.  For element 0, whose ValidLength is 1,
    [smoothing_module] reads the padding slot [z_hat[0, 1]], [P[0, 1]] and
    writes the real value [[1]] (a copy of [bar_z[0, 0]]) into it. *)
Lemma smoothing_writes_padding :
  exists out row0, smoothing_module zC5 PC5 = Ok out /\ nth_error out 0 = Some row0 /\
    nth_error row0 1 = Some [(0 * 0 + (1 - 0) * 1)%R] /\ [(0 * 0 + (1 - 0) * 1)%R] <> zeros 1.
Proof.
  eexists. eexists. split; [reflexivity|]. split; [reflexivity|]. split; [reflexivity|].
  unfold zeros. simpl. intros H. injection H as H. lra.
Qed.

(** C5, as the code has it.  For every batch element [b], the output row
    starts with [z_hat[b, 0]] and satisfies
    [bar_z[b, t] = P[b, t] * z_hat[b, t] + (1 - P[b, t]) * bar_z[b, t-1]]
    at every index [1 <= t < L'] of the padded length, padding slots
    included; at a padding slot ([P[b, t] = 0]) it therefore copies
    [bar_z[b, t-1]] forward. *)
Theorem smoothing_recurrence_over_padded z_hat P out
  (H : smoothing_module z_hat P = Ok out) :
  forall bi (zrow orow : list vec),
    nth_error z_hat bi = Some zrow -> nth_error out bi = Some orow ->
    length orow = length zrow /\ nth_error orow 0 = nth_error zrow 0 /\
    forall t zt (Prow : vec) pt prev, 1 <= t ->
      nth_error zrow t = Some zt -> nth_error P bi = Some Prow -> nth_error Prow t = Some pt ->
      nth_error orow (t - 1) = Some prev ->
      nth_error orow t = Some (vadd (vscale pt zt) (vscale (1 - pt) prev)) /\
      (pt = 0%R -> length zt = length prev ->
       forall k, nth k (vadd (vscale pt zt) (vscale (1 - pt) prev)) 0%R = nth k prev 0%R).
Proof.
  intros bi zrow orow Hz Ho.
  unfold smoothing_module in H.
  destruct (mapiM_from_Ok _ _ 0 out H bi zrow Hz) as [orow' [Hrow Ho']].
  assert (orow' = orow) as -> by (unfold vec in *; congruence). simpl in Hrow.
  unfold smooth_row in Hrow.
  destruct (getitem zrow 0) as [z0|e] eqn:E0; [|discriminate]. cbn [bind] in Hrow.
  destruct (smooth_loop P bi (tl zrow) 1 z0) as [rest|e] eqn:El; [|discriminate].
  cbn [bind] in Hrow. injection Hrow as <-.
  apply getitem_Ok in E0.
  destruct zrow as [|z0' ztl]; [discriminate|]. simpl in E0. injection E0 as ->.
  destruct (smooth_loop_Ok _ _ _ _ _ _ El) as [Hl Hn]. simpl in Hl.
  split; [simpl; lia|]. split; [reflexivity|].
  intros t zt Prow pt prev Ht Hzt HP Hpt Hprev.
  destruct t as [|j]; [lia|]. simpl in Hzt.
  destruct (Hn j zt Hzt) as [pj [Hpj Hr]].
  unfold getitem2 in Hpj. simpl in Hpj.
  assert (GP : getitem P bi = Ok Prow) by (apply getitem_Ok; exact HP).
  rewrite GP in Hpj. cbn [bind] in Hpj. apply getitem_Ok in Hpj.
  assert (pj = pt) as -> by congruence.
  simpl in Hprev. rewrite Nat.sub_0_r in Hprev.
  assert (Hprev' : nth j (z0 :: rest) [] = prev).
  { destruct j as [|j']; simpl in Hprev |- *.
    - congruence.
    - apply nth_error_nth. exact Hprev. }
  rewrite Hprev' in Hr. split; [exact Hr|].
  intros -> Hlen k. apply vadd_scale_zero. exact Hlen.
Qed.

(** [smoothing_recurrence_over_padded] on the batch of the
    counterexample. *)
Lemma smoothing_recurrence_over_padded_witness :
  exists out, smoothing_module zC5 PC5 = Ok out /\
    forall orow, nth_error out 0 = Some orow -> length orow = 2.
Proof.
  eexists. split; [reflexivity|]. intros orow Ho.
  destruct (smoothing_recurrence_over_padded zC5 PC5 _ eq_refl 0 [[1];[0]]%R orow eq_refl Ho)
    as [Hl _].
  exact Hl.
Defined.

(** ** C6 *)

(** C6 (code_bug), Scenario A.  The stage round trip
    [Upsampler(Smoother(Downsampler(X)))] on the [(1, 4, 1)] input with
    [b = [1,0,1,0]] raises [IndexError 2 2] in [upsample] instead of
    returning a [(1, 4, 1)] tensor; and the one-stage model raises
    [NameError "ema_smooth"] on the [(1, 1, 1)] input instead of returning
    a tensor of that shape. *)
Theorem stage_roundtrip_scenario_A_fails :
  stage_roundtrip xA bA pA = Raise (IndexError 2 2) /\
  forward hnet1 x1 = Raise (NameError "ema_smooth").
Proof.
  split.
  - unfold stage_roundtrip, downsample, xA, bA, pA, select_row, gather, nonzero, max_len,
      smoothing_module, smooth_row, getitem2, upsample, upsample_row.
    rdecide. reflexivity.
  - unfold forward, hnet1, compress, decompress, router_forward, downsample, x1,
      select_row, gather, nonzero, max_len, linear3, linear_vec, resolve_smoother.
    rdecide. reflexivity.
Qed.

(** ** C10 *)

Lemma decompress_first_stage h n xs ps zs :
  decompress h (rev (seq 0 (S n))) xs ps zs = Raise (NameError "ema_smooth").
Proof. rewrite seq_S, rev_app_distr. reflexivity. Qed.

(** C10, counterexample.  On a batch of size 0 (a [(0, 1, 1)] tensor,
    the empty list here) the one-stage model fails in [downsample], with
    the [ValueError] of [max] over an empty sequence, before reaching the
    smoothing step. *)
Lemma forward_empty_batch_ValueError :
  num_stages hnet1 = 1 /\ forward hnet1 [] = Raise ValueError.
Proof. split; reflexivity. Qed.

(** C10, as the code has it.  With at least one stage, [HNet.forward]
    never returns a value; whenever the compression stages and the main
    model complete, it raises [NameError "ema_smooth"] at the first
    decompression step, before the smoother, [upsample], the skip
    connection or the decoder run. *)
Theorem forward_fails_at_ema_smooth h x0 (Hn : 1 <= num_stages h) :
  (forall z, forward h x0 <> Ok z) /\
  (forall xs ps z_hat_S, compress h (num_stages h) [x0] [] = Ok (xs, ps) ->
     linear3 (main h) (last xs []) = Ok z_hat_S ->
     forward h x0 = Raise (NameError "ema_smooth")).
Proof.
  destruct (num_stages h) as [|n] eqn:En; [lia|].
  assert (Hafter : forall xs ps z_hat_S, compress h (num_stages h) [x0] [] = Ok (xs, ps) ->
            linear3 (main h) (last xs []) = Ok z_hat_S ->
            forward h x0 = Raise (NameError "ema_smooth")).
  { intros xs ps z Hc Hm. unfold forward. rewrite Hc. cbn [bind].
    rewrite Hm. cbn [bind]. rewrite En, decompress_first_stage. reflexivity. }
  rewrite En in Hafter. split; [|exact Hafter].
  intros z Hz. unfold forward in Hz. rewrite En in Hz.
  destruct (compress h (S n) [x0] []) as [[xs ps]|e] eqn:Ec; cbn [bind] in Hz; [|discriminate].
  destruct (linear3 (main h) (last xs [])) as [zm|e] eqn:Em; cbn [bind] in Hz; [|discriminate].
  rewrite decompress_first_stage in Hz. discriminate.
Qed.

(** [forward_fails_at_ema_smooth] on the one-stage model and a
    [(1, 1, 1)] input, where compression and the main model complete. *)
Lemma forward_fails_at_ema_smooth_witness :
  exists xs ps z, compress hnet1 1 [x1] [] = Ok (xs, ps) /\
    linear3 (main hnet1) (last xs []) = Ok z /\
    forward hnet1 x1 = Raise (NameError "ema_smooth").
Proof.
  do 3 eexists.
  assert (Hc : compress hnet1 1 [x1] [] = Ok ([x1; [[[1 * 1 + 0 + 0]%R]]],
    [([[1%R]], [[1%R]], [[1%R]])])).
  { unfold compress, hnet1, router_forward, downsample, x1, select_row, gather,
      nonzero, max_len, linear3, linear_vec.
    rdecide. reflexivity. }
  split; [exact Hc|]. split; [reflexivity|].
  eapply (proj2 (forward_fails_at_ema_smooth hnet1 x1 (le_n 1))); [exact Hc | reflexivity].
Defined.

(** ** C7 *)

Lemma threshold_iff pt : threshold pt = 1%R <-> (1 / 2 <= pt)%R.
Proof.
  unfold threshold. destruct (Rle_dec (1 / 2) pt) as [H|H]; split; intros H'; auto.
  - lra.
  - contradiction.
Qed.

Lemma threshold_binary pt : threshold pt = 0%R \/ threshold pt = 1%R.
Proof. unfold threshold. destruct (Rle_dec (1 / 2) pt); auto. Qed.

Lemma force_first_Ok prow prow' : force_first prow = Ok prow' -> prow' = 1%R :: tl prow /\ prow <> [].
Proof. destruct prow; simpl; intros H; [discriminate|]. injection H as <-. split; [reflexivity | discriminate]. Qed.

(** C7.  Whatever the weights and the input, when the router returns
    [(p, b)], every row [i] has [p[i, 0] = 1.0] and [b[i, 0] = 1], and at
    every position [t], [b[i, t]] is [0] or [1] with [b[i, t] = 1] exactly
    when [p[i, t] >= 0.5]. *)
Theorem router_forces_first_boundary r x_hat p b
  (H : router_forward r x_hat = Ok (p, b)) :
  forall i (prow : vec), nth_error p i = Some prow ->
  exists brow : vec, nth_error b i = Some brow /\
    nth_error prow 0 = Some 1%R /\ nth_error brow 0 = Some 1%R /\
    forall t pt, nth_error prow t = Some pt ->
      exists bt, nth_error brow t = Some bt /\ (bt = 0%R \/ bt = 1%R) /\
                 (bt = 1%R <-> (1 / 2 <= pt)%R).
Proof.
  unfold router_forward in H.
  destruct (linear3 (W_q r) x_hat) as [q|e]; cbn [bind] in H; [|discriminate].
  destruct (linear3 (W_k r) x_hat) as [k|e]; cbn [bind] in H; [|discriminate].
  destruct (mapM force_first _) as [p'|e] eqn:Ep; cbn [bind] in H; [|discriminate].
  injection H as <- <-.
  intros i prow Hi. exists (map threshold prow). unfold vec, tensor2, tensor3 in *.
  split; [rewrite nth_error_map, Hi; reflexivity|].
  destruct (mapM_Ok _ _ _ Ep) as [_ Hn].
  destruct (mapM_Ok _ _ _ Ep) as [Hl _].
  assert (Hil : i < length p') by (apply nth_error_Some; congruence).
  rewrite Hl in Hil.
  match type of Ep with mapM _ ?p0 = _ =>
    assert (Hp0 : exists p0row, nth_error p0 i = Some p0row)
      by (destruct (nth_error p0 i) as [p0row|] eqn:E; [eauto | apply nth_error_None in E; lia])
  end.
  destruct Hp0 as [p0row Hp0].
  destruct (Hn i p0row Hp0) as [y [Hf Hy]].
  assert (y = prow) as -> by (unfold vec in *; congruence).
  destruct (force_first_Ok _ _ Hf) as [-> _].
  split; [reflexivity|]. split.
  - simpl. rewrite (threshold_ge 1) by lra. reflexivity.
  - intros t pt Ht. exists (threshold pt). split.
    + rewrite nth_error_map, Ht. reflexivity.
    + split; [apply threshold_binary | apply threshold_iff].
Qed.

(** [router_forces_first_boundary] on the [(1, 1, 1)] input. *)
Lemma router_forces_first_boundary_witness :
  exists p b, router_forward router1 x1 = Ok (p, b) /\
    exists brow : vec, nth_error b 0 = Some brow /\ nth_error brow 0 = Some 1%R.
Proof.
  do 2 eexists. split; [reflexivity|].
  destruct (router_forces_first_boundary router1 x1 _ _ eq_refl 0 [1%R] eq_refl)
    as (brow & Hb & _ & Hb0 & _).
  exists brow. split; assumption.
Defined.

(** ** C8 *)

Lemma sumsq_nonneg u : (0 <= sumsq u)%R.
Proof. induction u as [|a u IH]; unfold sumsq in *; simpl; nra. Qed.

(** Cauchy-Schwarz for [dot], which pairs entries up to the shorter
    vector. *)
Lemma dot_sq_le u v : (dot u v * dot u v <= sumsq u * sumsq v)%R.
Proof.
  revert v. induction u as [|a u IH]; intros [|c v].
  - unfold dot, sumsq. simpl. nra.
  - pose proof (sumsq_nonneg (c :: v)). unfold dot, sumsq in *. simpl in *. nra.
  - pose proof (sumsq_nonneg (a :: u)). unfold dot, sumsq in *. simpl in *. nra.
  - specialize (IH v). pose proof (sumsq_nonneg u). pose proof (sumsq_nonneg v).
    unfold dot, sumsq in *. simpl.
    set (d := fold_right Rplus 0%R (map (fun xy => (fst xy * snd xy)%R) (combine u v))) in *.
    set (A := fold_right Rplus 0%R (map (fun x => (x * x)%R) u)) in *.
    set (B := fold_right Rplus 0%R (map (fun x => (x * x)%R) v)) in *.
    assert (Hx : (0 <= a * a * B)%R) by nra.
    assert (Hy : (0 <= A * (c * c))%R) by nra.
    assert (Hxy : ((2 * a * c * d) * (2 * a * c * d) <= (a * a * B + A * (c * c)) * (a * a * B + A * (c * c)))%R).
    { assert (((2 * a * c * d) * (2 * a * c * d)) = 4 * (a * a * (c * c)) * (d * d))%R as -> by ring.
      assert (Hac : (0 <= a * a * (c * c))%R) by nra.
      assert (H1 : (a * a * (c * c) * (d * d) <= a * a * (c * c) * (A * B))%R)
        by (apply Rmult_le_compat_l; assumption).
      assert (H2 : (4 * (a * a * (c * c)) * (A * B) = 4 * ((a * a * B) * (A * (c * c))))%R) by ring.
      assert (H3 : (4 * ((a * a * B) * (A * (c * c))) <=
                    (a * a * B + A * (c * c)) * (a * a * B + A * (c * c)))%R)
        by (pose proof (Rle_0_sqr (a * a * B - A * (c * c))); unfold Rsqr in *; nra).
      lra. }
    assert (Hle : (2 * a * c * d <= a * a * B + A * (c * c))%R) by nra.
    nra.
Qed.

Lemma dot_le_norms u v : (- (norm u * norm v) <= dot u v <= norm u * norm v)%R.
Proof.
  pose proof (dot_sq_le u v) as H. pose proof (sumsq_nonneg u). pose proof (sumsq_nonneg v).
  unfold norm. pose proof (sqrt_pos (sumsq u)). pose proof (sqrt_pos (sumsq v)).
  pose proof (sqrt_sqrt (sumsq u) ltac:(assumption)).
  pose proof (sqrt_sqrt (sumsq v) ltac:(assumption)).
  set (s := (sqrt (sumsq u) * sqrt (sumsq v))%R).
  assert (Hs : (s * s = sumsq u * sumsq v)%R) by (unfold s; nra).
  assert (Hs0 : (0 <= s)%R) by (unfold s; nra).
  split; nra.
Qed.

Lemma eps_pos : (0 < eps)%R.
Proof. unfold eps. apply Rinv_0_lt_compat. lra. Qed.

(** The denominator is at least [eps * eps], and [p] lies in [[0, 1]]. *)
Lemma p_entry_bounds qt kt :
  (eps * eps <= (norm qt + eps) * (norm kt + eps))%R /\ (0 <= p_entry qt kt <= 1)%R.
Proof.
  pose proof eps_pos. pose proof (sqrt_pos (sumsq qt)). pose proof (sqrt_pos (sumsq kt)).
  pose proof (dot_le_norms qt kt) as Hd. unfold norm in *.
  set (nq := sqrt (sumsq qt)) in *. set (nk := sqrt (sumsq kt)) in *.
  assert (Hden : (eps * eps <= (nq + eps) * (nk + eps))%R) by nra.
  split; [exact Hden|].
  unfold p_entry, cos_sim, norm. fold nq nk.
  set (den := ((nq + eps) * (nk + eps))%R) in *.
  assert (Hpos : (0 < den)%R) by (unfold den; nra).
  assert (Hnn : (nq * nk <= den)%R) by (unfold den; nra).
  set (c := (dot qt kt / den)%R).
  assert (Hc : dot qt kt = (c * den)%R) by (unfold c; field; lra).
  assert (Hcb : (-1 <= c <= 1)%R) by (split; nra).
  lra.
Qed.

Lemma removelast_nth_error {A} (l : list A) j x :
  nth_error (removelast l) j = Some x -> nth_error l j = Some x.
Proof.
  revert j. induction l as [|a l IH]; intros j H; [destruct j; discriminate|].
  destruct l as [|b l]; [destruct j; discriminate|].
  destruct j as [|j]; simpl in *; [exact H | apply IH; exact H].
Qed.

(** [k_shifted[t] = k[t-1]] for [t >= 1]. *)
Lemma shift_row_nth (krow : list vec) t x :
  1 <= t -> nth_error (shift_row krow) t = Some x -> nth_error krow (t - 1) = Some x.
Proof.
  intros Ht H. destruct krow as [|k0 rest]; [destruct t; discriminate|].
  destruct t as [|j]; [lia|]. simpl in H. simpl. rewrite Nat.sub_0_r.
  apply removelast_nth_error. exact H.
Qed.

Lemma nth_error_combine_Some {A B} (l1 : list A) (l2 : list B) i x y :
  nth_error (combine l1 l2) i = Some (x, y) -> nth_error l1 i = Some x /\ nth_error l2 i = Some y.
Proof.
  revert l2 i. induction l1 as [|a l1 IH]; intros [|c l2] [|i] H; simpl in *; try discriminate.
  - injection H as -> ->. auto.
  - apply IH. exact H.
Qed.

(** C8, counterexample.  With identity projections on two equal
    positions, [Q_1 = K_0 = v] with [v = [1]] numerically, the router
    returns [p_1 = 0.5 (1 - 1 / ((1 + eps) (1 + eps)))]: [eps] is added to
    each norm, and the claimed [0.5 (1 - 1 / (1 * 1 + eps))] differs. *)
Lemma router_eps_added_to_each_norm :
  let v := [(1 * 1 + 0)%R] in
  exists p b prow pt, router_forward router1 x2 = Ok (p, b) /\
    nth_error p 0 = Some prow /\ nth_error prow 1 = Some pt /\
    pt <> (1 / 2 * (1 - dot v v / (norm v * norm v + eps)))%R.
Proof.
  intros v. do 4 eexists. split; [reflexivity|]. split; [reflexivity|]. split; [reflexivity|].
  assert (Hv : v = [1%R]) by (unfold v; f_equal; ring).
  unfold p_entry, cos_sim, linear_vec. simpl. fold v. rewrite Hv.
  assert (Hn : norm [1%R] = 1%R).
  { unfold norm, sumsq. simpl. replace (1 * 1 + 0)%R with 1%R by ring. apply sqrt_1. }
  assert (Hd : dot [1%R] [1%R] = 1%R) by (unfold dot; simpl; ring).
  rewrite Hn, Hd. pose proof eps_pos as He. intros H.
  assert (Hinv : (/ ((1 + eps) * (1 + eps)) = / (1 * 1 + eps))%R).
  { rewrite ?Hn, ?Hd in H. unfold Rdiv in H. lra. }
  apply Rinv_eq_reg in Hinv. nra.
Qed.

(** C8, as the code has it.  For [t >= 1], the router's probability is
    [p_t = 0.5 (1 - dot(Q_t, K_{t-1}) / ((|Q_t| + eps) (|K_{t-1}| + eps)))]
    with [eps = 1e-8] added to each norm, and the denominator is
    positive: the division is never by zero. *)
Theorem router_probability_formula r x_hat p b q k
  (H : router_forward r x_hat = Ok (p, b))
  (Hq : linear3 (W_q r) x_hat = Ok q) (Hk : linear3 (W_k r) x_hat = Ok k) :
  forall i (prow : vec) (qrow krow : list vec) t pt,
    nth_error p i = Some prow -> nth_error q i = Some qrow -> nth_error k i = Some krow ->
    1 <= t -> nth_error prow t = Some pt ->
    exists qt kt, nth_error qrow t = Some qt /\ nth_error krow (t - 1) = Some kt /\
      pt = (1 / 2 * (1 - dot qt kt / ((norm qt + eps) * (norm kt + eps))))%R /\
      (0 < (norm qt + eps) * (norm kt + eps))%R.
Proof.
  unfold router_forward in H. rewrite Hq, Hk in H. cbn [bind] in H.
  destruct (mapM force_first _) as [p'|e] eqn:Ep; cbn [bind] in H; [|discriminate].
  injection H as <- _.
  intros i prow qrow krow t pt Hpi Hqi Hki Ht Hpt.
  destruct (mapM_Ok _ _ _ Ep) as [Hl Hn].
  unfold vec, tensor2, tensor3 in *.
  assert (Hil : i < length p') by (apply nth_error_Some; congruence).
  rewrite Hl in Hil.
  match type of Ep with mapM _ ?p0 = _ =>
    assert (Hp0 : exists p0row, nth_error p0 i = Some p0row)
      by (destruct (nth_error p0 i) as [p0row|] eqn:E; [eauto | apply nth_error_None in E; lia])
  end.
  destruct Hp0 as [p0row Hp0].
  destruct (Hn i p0row Hp0) as [y [Hf Hy]].
  assert (y = prow) as -> by congruence.
  destruct (force_first_Ok _ _ Hf) as [-> Hne].
  destruct p0row as [|p00 p0tl]; [congruence|].
  destruct t as [|j]; [lia|]. simpl in Hpt.
  rewrite nth_error_map in Hp0.
  match type of Hp0 with context [nth_error ?c i] =>
    destruct (nth_error c i) as [[qrow' ksrow]|] eqn:Ec; simpl in Hp0; [|discriminate]
  end.
  injection Hp0 as Hp0.
  destruct (nth_error_combine_Some _ _ _ _ _ Ec) as [Hq' Hks].
  assert (qrow' = qrow) as -> by congruence.
  rewrite nth_error_map, Hki in Hks. simpl in Hks. injection Hks as <-.
  assert (Hpt' : nth_error (p00 :: p0tl) (S j) = Some pt) by exact Hpt.
  rewrite <- Hp0 in Hpt'.
  rewrite nth_error_map in Hpt'.
  match type of Hpt' with context [nth_error ?c (S j)] =>
    destruct (nth_error c (S j)) as [[qt kt]|] eqn:Eqk; simpl in Hpt'; [|discriminate]
  end.
  injection Hpt' as <-.
  destruct (nth_error_combine_Some _ _ _ _ _ Eqk) as [Hqt Hkt].
  exists qt, kt. split; [exact Hqt|]. split.
  { apply shift_row_nth; [lia | exact Hkt]. }
  destruct (p_entry_bounds qt kt) as [Hden _]. pose proof eps_pos.
  split; [reflexivity|]. nra.
Qed.

(** [router_probability_formula] at position 1 of the counterexample's
    input. *)
Lemma router_probability_formula_witness :
  exists p b q k, router_forward router1 x2 = Ok (p, b) /\
    linear3 (W_q router1) x2 = Ok q /\ linear3 (W_k router1) x2 = Ok k /\
    exists (prow : vec) (qrow krow : list vec) pt,
      nth_error p 0 = Some prow /\ nth_error q 0 = Some qrow /\ nth_error k 0 = Some krow /\
      nth_error prow 1 = Some pt /\
      exists qt kt : vec, pt = (1 / 2 * (1 - dot qt kt / ((norm qt + eps) * (norm kt + eps))))%R.
Proof.
  do 4 eexists. split; [reflexivity|]. split; [reflexivity|]. split; [reflexivity|].
  do 4 eexists. split; [reflexivity|]. split; [reflexivity|]. split; [reflexivity|].
  split; [reflexivity|].
  destruct (router_probability_formula router1 x2 _ _ _ _ eq_refl eq_refl eq_refl
              0 _ _ _ 1 _ eq_refl eq_refl eq_refl (le_n 1) eq_refl)
    as (qt & kt & _ & _ & Hf & _).
  exists qt, kt. exact Hf.
Defined.

(** ** Further properties of the code *)

(** *** Lists and the result monad, continued *)


Lemma mapM_Raise {A B} (f : A -> result B) l e :
  (exists x, In x l /\ f x = Raise e) ->
  (forall x e', In x l -> f x = Raise e' -> e' = e) ->
  mapM f l = Raise e.
Proof.
  induction l as [|a l IH]; intros [x [Hx Hf]] Hall; [contradiction|].
  simpl. destruct (f a) as [y|e'] eqn:Ea; cbn [bind].
  - destruct Hx as [<-|Hx]; [congruence|].
    rewrite IH; [reflexivity | exists x; auto |].
    intros x' e'' Hx' Hf'. exact (Hall x' e'' (or_intror Hx') Hf').
  - f_equal. exact (Hall a e' (or_introl eq_refl) Ea).
Qed.

Lemma mapiM_from_Ok_iff {A B} (f : nat -> A -> result B) l : forall i,
  (exists ys, mapiM_from f i l = Ok ys) <->
  (forall k x, nth_error l k = Some x -> exists y, f (i + k) x = Ok y).
Proof.
  induction l as [|a l IH]; intros i; split.
  - intros _ [|k] x Hk; discriminate.
  - intros _. exists []. reflexivity.
  - intros [ys H] k x Hk. simpl in H.
    destruct (f i a) as [y|e] eqn:Ef; [|discriminate]. cbn [bind] in H.
    destruct (mapiM_from f (S i) l) as [ys'|e] eqn:Er; [|discriminate].
    destruct k as [|k]; simpl in Hk.
    + injection Hk as <-. exists y. rewrite Nat.add_0_r. exact Ef.
    + destruct (proj1 (IH (S i)) (ex_intro _ ys' Er) k x Hk) as [y' Hy'].
      exists y'. rewrite Nat.add_succ_r. exact Hy'.
  - intros H. simpl.
    destruct (H 0 a eq_refl) as [y Hy]. rewrite Nat.add_0_r in Hy. rewrite Hy. cbn [bind].
    destruct (proj2 (IH (S i))) as [ys Hys].
    { intros k x Hk. replace (S i + k) with (i + S k) by lia. exact (H (S k) x Hk). }
    rewrite Hys. eexists. reflexivity.
Qed.

Lemma mapiM_from_length {A B} (f : nat -> A -> result B) l : forall i ys,
  mapiM_from f i l = Ok ys -> length ys = length l.
Proof.
  induction l as [|a l IH]; intros i ys H; simpl in H.
  - injection H as <-. reflexivity.
  - destruct (f i a) as [y|e]; [|discriminate]. cbn [bind] in H.
    destruct (mapiM_from f (S i) l) as [ys'|e] eqn:Er; [|discriminate].
    injection H as <-. simpl. f_equal. exact (IH _ _ Er).
Qed.

Lemma mapiM_from_In {A B} (f : nat -> A -> result B) l i ys y :
  mapiM_from f i l = Ok ys -> In y ys -> exists k x, nth_error l k = Some x /\ f (i + k) x = Ok y.
Proof.
  intros H Hy. apply In_nth_error in Hy as [k Hk].
  assert (Hkl : k < length l).
  { rewrite <- (mapiM_from_length f l i ys H). apply nth_error_Some. congruence. }
  destruct (nth_error l k) as [x|] eqn:Ex; [|apply nth_error_None in Ex; lia].
  destruct (mapiM_from_Ok f l i ys H k x Ex) as [y' [Hf Hy']].
  exists k, x. split; [exact Ex|]. congruence.
Qed.


Lemma nth_error_combine {A B} (l1 : list A) (l2 : list B) i x y :
  nth_error l1 i = Some x -> nth_error l2 i = Some y -> nth_error (combine l1 l2) i = Some (x, y).
Proof.
  revert l2 i. induction l1 as [|a l1 IH]; intros [|c l2] [|i] H1 H2; simpl in *; try discriminate.
  - congruence.
  - apply IH; assumption.
Qed.




(** *** The router, row by row *)

Lemma linear3_shape l x y : linear3 l x = Ok y ->
  length y = length x /\ forall i xrow, nth_error x i = Some xrow ->
    exists yrow, nth_error y i = Some yrow /\ length yrow = length xrow /\
      forall t v, nth_error xrow t = Some v -> exists w, linear_vec l v = Ok w /\ nth_error yrow t = Some w.
Proof.
  unfold linear3. intros H. destruct (mapM_Ok _ _ _ H) as [Hl Hn]. split; [exact Hl|].
  intros i xrow Hi. destruct (Hn i xrow Hi) as [yrow [Hy Hyi]].
  exists yrow. split; [exact Hyi|]. destruct (mapM_Ok _ _ _ Hy) as [Hyl Hyn].
  split; [exact Hyl | exact Hyn].
Qed.

Lemma removelast_cons_length {A} (a : A) l : length (removelast (a :: l)) = length l.
Proof.
  revert a. induction l as [|b l IH]; intros a; [reflexivity|].
  change (removelast (a :: b :: l)) with (a :: removelast (b :: l)).
  cbn [length]. rewrite IH. reflexivity.
Qed.

Lemma shift_row_length (krow : list vec) : length (shift_row krow) = length krow.
Proof.
  destruct krow as [|k0 rest]; [reflexivity|].
  unfold shift_row. cbn [firstn app length]. rewrite removelast_cons_length. reflexivity.
Qed.

(** Each row [p[i]] of the router's probabilities has one entry per
    position; from position 1 on, entry [t] is [p_entry Q_t K_{t-1}]. *)
Lemma router_rows r x_hat p b q k
  (H : router_forward r x_hat = Ok (p, b))
  (Hq : linear3 (W_q r) x_hat = Ok q) (Hk : linear3 (W_k r) x_hat = Ok k) :
  b = map (map threshold) p /\ length p = length x_hat /\
  forall i (xrow qrow krow : list vec), nth_error x_hat i = Some xrow ->
    nth_error q i = Some qrow -> nth_error k i = Some krow ->
    exists prow : vec, nth_error p i = Some prow /\ length prow = length xrow /\
      nth_error prow 0 = Some 1%R /\
      forall t qt kt, 1 <= t -> nth_error qrow t = Some qt -> nth_error krow (t - 1) = Some kt ->
        nth_error prow t = Some (p_entry qt kt).
Proof.
  unfold router_forward in H. rewrite Hq, Hk in H. cbn [bind] in H.
  destruct (mapM force_first _) as [p'|e] eqn:Ep; cbn [bind] in H; [|discriminate].
  injection H as <- <-. split; [reflexivity|].
  destruct (mapM_Ok _ _ _ Ep) as [Hl Hn].
  destruct (linear3_shape _ _ _ Hq) as [Hql Hqn].
  destruct (linear3_shape _ _ _ Hk) as [Hkl Hkn].
  split.
  { rewrite Hl, length_map, length_combine, length_map. lia. }
  intros i xrow qrow krow Hx Hqi Hki.
  destruct (Hqn i xrow Hx) as (qrow' & Hq' & Hqlen & _).
  destruct (Hkn i xrow Hx) as (krow' & Hk' & Hklen & _).
  assert (qrow' = qrow) as -> by (unfold vec, tensor2, tensor3 in *; congruence).
  assert (krow' = krow) as -> by (unfold vec, tensor2, tensor3 in *; congruence).
  assert (Hc : nth_error (combine q (map shift_row k)) i = Some (qrow, shift_row krow)).
  { apply nth_error_combine; [exact Hqi | rewrite nth_error_map, Hki; reflexivity]. }
  set (p0row := map (fun qk : vec * vec => p_entry (fst qk) (snd qk)) (combine qrow (shift_row krow))).
  assert (Hp0 : nth_error (map (fun rows : list vec * list vec =>
                  map (fun qk : vec * vec => p_entry (fst qk) (snd qk)) (combine (fst rows) (snd rows)))
                  (combine q (map shift_row k))) i = Some p0row).
  { rewrite nth_error_map, Hc. reflexivity. }
  destruct (Hn i p0row Hp0) as [prow [Hf Hpi]].
  destruct (force_first_Ok _ _ Hf) as [Hprow Hne].
  assert (Hp0len : length p0row = length xrow).
  { unfold p0row. rewrite length_map, length_combine, shift_row_length. lia. }
  exists prow. split; [exact Hpi|].
  destruct p0row as [|p00 p0tl] eqn:E0; [congruence|].
  rewrite Hprow. split; [simpl in *; lia|]. split; [reflexivity|].
  intros t qt kt Ht Hqt Hkt. destruct t as [|j]; [lia|]. simpl.
  change (nth_error p0tl j) with (nth_error (p00 :: p0tl) (S j)). rewrite <- E0.
  unfold p0row. rewrite nth_error_map.
  assert (Hks : nth_error (shift_row krow) (S j) = Some kt).
  { assert (Hjl : S j < length (shift_row krow)).
    { rewrite shift_row_length.
      assert (S j < length qrow) by (apply nth_error_Some; congruence). lia. }
    destruct (nth_error (shift_row krow) (S j)) as [kt'|] eqn:Eks;
      [|apply nth_error_None in Eks; lia].
    pose proof (shift_row_nth krow (S j) kt' Ht Eks) as Hk''. congruence. }
  rewrite (nth_error_combine _ _ _ _ _ Hqt Hks). reflexivity.
Qed.

Lemma router_linear r x_hat p b (H : router_forward r x_hat = Ok (p, b)) :
  exists q k, linear3 (W_q r) x_hat = Ok q /\ linear3 (W_k r) x_hat = Ok k.
Proof.
  unfold router_forward in H.
  destruct (linear3 (W_q r) x_hat) as [q|e]; cbn [bind] in H; [|discriminate].
  destruct (linear3 (W_k r) x_hat) as [k|e]; cbn [bind] in H; [|discriminate].
  eauto.
Qed.

Lemma p_entry_orthogonal (qt kt : vec) : dot qt kt = 0%R -> p_entry qt kt = (1 / 2)%R.
Proof.
  intros H. unfold p_entry, cos_sim. cbv zeta. rewrite H. unfold Rdiv. rewrite Rmult_0_l. ring.
Qed.

(** *** Router *)

(** [SimilarityRouter.forward] returns one row of [p] and one row of [b]
    per batch element, each with one entry per position of [x_hat[i]];
    [b] is [p] thresholded at [0.5] and [p[i, 0] = 1]. *)
Theorem router_output_shape r x_hat p b (H : router_forward r x_hat = Ok (p, b)) :
  length p = length x_hat /\ length b = length x_hat /\
  forall i (xrow : list vec), nth_error x_hat i = Some xrow ->
    exists prow : vec, nth_error p i = Some prow /\ nth_error b i = Some (map threshold prow) /\
      length prow = length xrow /\ nth_error prow 0 = Some 1%R.
Proof.
  destruct (router_linear _ _ _ _ H) as (q & k & Hq & Hk).
  destruct (router_rows _ _ _ _ _ _ H Hq Hk) as (-> & Hl & Hrows).
  rewrite length_map. split; [exact Hl|]. split; [exact Hl|].
  intros i xrow Hx.
  destruct (linear3_shape _ _ _ Hq) as [_ Hqn]. destruct (linear3_shape _ _ _ Hk) as [_ Hkn].
  destruct (Hqn i xrow Hx) as (qrow & Hqi & _). destruct (Hkn i xrow Hx) as (krow & Hki & _).
  destruct (Hrows i xrow qrow krow Hx Hqi Hki) as (prow & Hpi & Hlen & H0 & _).
  unfold vec, tensor2, tensor3 in *.
  exists prow. split; [exact Hpi|]. split; [rewrite nth_error_map, Hpi; reflexivity|].
  split; assumption.
Qed.

(** [router_output_shape] on two positions of width 1. *)
Lemma router_output_shape_witness :
  exists p b, router_forward router1 x2 = Ok (p, b) /\ length p = length x2.
Proof.
  do 2 eexists. split; [reflexivity|].
  exact (proj1 (router_output_shape router1 x2 _ _ eq_refl)).
Defined.

(** When a batch element has no positions ([x_hat[i]] of length 0) and
    both projections succeed, the router raises the [IndexError] of
    [p[:, 0] = 1.0] (index 0, size 0). *)
Theorem router_empty_position_IndexError r x_hat q k i
  (Hq : linear3 (W_q r) x_hat = Ok q) (Hk : linear3 (W_k r) x_hat = Ok k)
  (Hi : nth_error x_hat i = Some []) :
  router_forward r x_hat = Raise (IndexError 0 0).
Proof.
  unfold router_forward. rewrite Hq, Hk. cbn [bind].
  destruct (linear3_shape _ _ _ Hq) as [_ Hqn]. destruct (linear3_shape _ _ _ Hk) as [_ Hkn].
  destruct (Hqn i [] Hi) as (qrow & Hqi & Hqlen & _).
  destruct (Hkn i [] Hi) as (krow & Hki & _).
  destruct qrow as [|q0 qrow]; [|discriminate].
  rewrite (mapM_Raise force_first _ (IndexError 0 0)); [reflexivity | |].
  - exists []. split; [|reflexivity].
    apply (nth_error_In _ i). rewrite nth_error_map.
    assert (Hks : nth_error (map shift_row k) i = Some (shift_row krow))
      by (rewrite nth_error_map, Hki; reflexivity).
    rewrite (nth_error_combine _ _ _ _ _ Hqi Hks). reflexivity.
  - intros x e' _ Hf. destruct x; simpl in Hf; congruence.
Qed.

(** [router_empty_position_IndexError] on a batch of one empty sequence. *)
Lemma router_empty_position_IndexError_witness :
  router_forward router1 ([[]] : tensor3) = Raise (IndexError 0 0).
Proof.
  exact (router_empty_position_IndexError router1 [[]] [[]] [[]] 0 eq_refl eq_refl eq_refl).
Defined.

(** At a position [t >= 1] whose query [Q_t] is orthogonal to the
    previous key [K_{t-1}] (in particular when either projection is the
    zero vector), the router gives [p_t = 0.5] and marks [t] as a
    boundary ([b_t = 1]). *)
Theorem router_orthogonal_boundary r x_hat p b q k i (qrow krow : list vec) t (qt kt : vec)
  (H : router_forward r x_hat = Ok (p, b))
  (Hq : linear3 (W_q r) x_hat = Ok q) (Hk : linear3 (W_k r) x_hat = Ok k)
  (Hqi : nth_error q i = Some qrow) (Hki : nth_error k i = Some krow) (Ht : 1 <= t)
  (Hqt : nth_error qrow t = Some qt) (Hkt : nth_error krow (t - 1) = Some kt)
  (Horth : dot qt kt = 0%R) :
  exists prow brow : vec, nth_error p i = Some prow /\ nth_error b i = Some brow /\
    nth_error prow t = Some (1 / 2)%R /\ nth_error brow t = Some 1%R.
Proof.
  destruct (router_rows _ _ _ _ _ _ H Hq Hk) as (-> & _ & Hrows).
  destruct (linear3_shape _ _ _ Hq) as [Hql _].
  destruct (nth_error x_hat i) as [xrow|] eqn:Hx.
  2:{ apply nth_error_None in Hx. assert (i < length q) by (apply nth_error_Some; congruence). lia. }
  destruct (Hrows i xrow qrow krow Hx Hqi Hki) as (prow & Hpi & _ & _ & Hent).
  pose proof (Hent t qt kt Ht Hqt Hkt) as Hpt. rewrite p_entry_orthogonal in Hpt by exact Horth.
  unfold vec, tensor2, tensor3 in *.
  exists prow, (map threshold prow). split; [exact Hpi|].
  split; [rewrite nth_error_map, Hpi; reflexivity|]. split; [exact Hpt|].
  rewrite nth_error_map, Hpt. simpl. rewrite threshold_ge by lra. reflexivity.
Qed.

(** [router_orthogonal_boundary] at position 1 of the input [[[1]; [0]]],
    whose second vector projects to zero. *)
Lemma router_orthogonal_boundary_witness :
  exists prow brow : vec, nth_error brow 1 = Some 1%R /\ nth_error prow 1 = Some (1 / 2)%R.
Proof.
  destruct (router_orthogonal_boundary router1 [[[1];[0]]]%R _ _ _ _ 0 _ _ 1 _ _
              eq_refl eq_refl eq_refl eq_refl eq_refl (le_n 1) eq_refl eq_refl
              ltac:(unfold dot; simpl; ring))
    as (prow & brow & _ & _ & Hp & Hb).
  exists prow, brow. split; assumption.
Defined.

(** *** Downsampler *)

Lemma downsample_rows x_hat b p X P (H : downsample x_hat b p = Ok (X, P)) :
  length X = length x_hat /\ length P = length x_hat /\
  exists m, forall i, i < length x_hat ->
    exists (brow : vec) (xrow : list vec) (prow : vec) (sel : list vec) (ps : vec),
      nth_error b i = Some brow /\ nth_error x_hat i = Some xrow /\ nth_error p i = Some prow /\
      gather xrow (nonzero brow) = Ok sel /\ gather prow (nonzero brow) = Ok ps /\
      length sel = length (nonzero brow) /\ length ps = length (nonzero brow) /\
      length sel <= m /\
      nth_error X i = Some (sel ++ repeat (zeros (feat_dim x_hat)) (m - length sel)) /\
      nth_error P i = Some (ps ++ repeat 0%R (m - length ps)).
Proof.
  unfold downsample in H.
  destruct (mapM (select_row x_hat b p) (seq 0 (length x_hat))) as [sel|e] eqn:Es; [|discriminate].
  cbn [bind] in H.
  destruct (max_len (map (@length vec) (map fst sel))) as [m|e] eqn:Em; [|discriminate].
  cbn [bind] in H. injection H as HX HP.
  destruct (mapM_Ok _ _ _ Es) as [Hlen Hnth]. rewrite length_seq in Hlen.
  split; [rewrite <- HX, !length_map; exact Hlen|].
  split; [rewrite <- HP, !length_map; exact Hlen|].
  exists m. intros i Hi.
  assert (Hseq : nth_error (seq 0 (length x_hat)) i = Some i).
  { rewrite nth_error_seq. apply Nat.ltb_lt in Hi. rewrite Hi. reflexivity. }
  destruct (Hnth i i Hseq) as [[xs ps] [Hsel Hsi]].
  unfold select_row in Hsel.
  destruct (getitem b i) as [brow|e] eqn:Gb; [|discriminate]. cbn [bind] in Hsel.
  destruct (getitem x_hat i) as [xrow|e] eqn:Gx; [|discriminate]. cbn [bind] in Hsel.
  destruct (gather xrow (nonzero brow)) as [xs'|e] eqn:Eg; [|discriminate]. cbn [bind] in Hsel.
  destruct (getitem p i) as [prow|e] eqn:Gp; [|discriminate]. cbn [bind] in Hsel.
  destruct (gather prow (nonzero brow)) as [ps'|e] eqn:Egp; [|discriminate]. cbn [bind] in Hsel.
  injection Hsel as <- <-.
  apply getitem_Ok in Gb. apply getitem_Ok in Gx. apply getitem_Ok in Gp.
  destruct (mapM_Ok _ _ _ Eg) as [Hxs _]. destruct (mapM_Ok _ _ _ Egp) as [Hps _].
  assert (Hle : length xs' <= m).
  { apply (max_len_ge _ _ Em). rewrite map_map. apply in_map_iff.
    exists (xs', ps'). split; [reflexivity|]. eapply nth_error_In; eauto. }
  exists brow, xrow, prow, xs', ps'.
  split; [exact Gb|]. split; [exact Gx|]. split; [exact Gp|]. split; [exact Eg|].
  split; [exact Egp|]. split; [exact Hxs|]. split; [exact Hps|]. split; [exact Hle|].
  split.
  - rewrite <- HX, map_map, nth_error_map, Hsi. reflexivity.
  - rewrite <- HP, map_map, nth_error_map, Hsi. reflexivity.
Qed.








(** [downsample] returns one block of features and one row of
    probabilities per batch element, all of one length [m]; the row of
    element [i] is [p[i]] at the positions where [b[i]] is non-zero, in
    order, followed by zeros. *)
Theorem downsample_output_shape x_hat b p X P (H : downsample x_hat b p = Ok (X, P)) :
  length X = length x_hat /\ length P = length x_hat /\
  exists m, forall i (Xi : list vec) (Pi : vec), nth_error X i = Some Xi -> nth_error P i = Some Pi ->
    length Xi = m /\ length Pi = m /\
    exists (brow prow ps : vec), nth_error b i = Some brow /\ nth_error p i = Some prow /\
      gather prow (nonzero brow) = Ok ps /\ Pi = ps ++ repeat 0%R (m - length ps).
Proof.
  destruct (downsample_rows _ _ _ _ _ H) as (HX & HP & m & Hm).
  split; [exact HX|]. split; [exact HP|]. exists m. intros i Xi Pi HXi HPi.
  assert (Hi : i < length x_hat) by (rewrite <- HX; apply nth_error_Some; congruence).
  destruct (Hm i Hi) as (brow & xrow & prow & sel & ps & Hbi & _ & Hpi & _ & Gp & Hsel & Hps & Hle & HX' & HP').
  unfold vec, tensor2, tensor3 in *.
  rewrite HXi in HX'. injection HX' as ->. rewrite HPi in HP'. injection HP' as ->.
  split; [rewrite length_app, repeat_length; lia|].
  split; [rewrite length_app, repeat_length; lia|].
  exists brow, prow, ps. auto.
Qed.

(** [downsample_output_shape] on Scenario A. *)
Lemma downsample_output_shape_witness :
  exists X P, downsample xA bA pA = Ok (X, P) /\ length P = length xA.
Proof.
  assert (E : downsample xA bA pA = Ok ([[[1];[3]]]%R, [[1;7/10]]%R)).
  { unfold downsample, xA, bA, pA, select_row, gather, nonzero, max_len. rdecide. reflexivity. }
  exists [[[1];[3]]]%R, [[1;7/10]]%R. split; [exact E|].
  exact (proj1 (proj2 (downsample_output_shape _ _ _ _ _ E))).
Defined.





(** *** Upsampler *)

Lemma setrow_Ok_width D row r : setrow D row = Ok r -> length r = D.
Proof.
  unfold setrow. destruct (Nat.eqb (length row) D) eqn:E.
  - intros H. injection H as <-. apply Nat.eqb_eq. exact E.
  - destruct row as [|x [|y row]]; intros H; try discriminate.
    injection H as <-. apply repeat_length.
Qed.

Lemma upsample_loop_shape (bar : list vec) (b : tensor2) i L D : forall n t c z,
  upsample_loop bar b i L D t c n = Ok z -> length z = n /\ forall row, In row z -> length row = D.
Proof.
  induction n as [|n IH]; intros t c z H; cbn [upsample_loop] in H.
  - injection H as <-. split; [reflexivity | intros _ []].
  - destruct (getitem bar c) as [row|e]; cbn [bind] in H; [|discriminate].
    destruct (setrow D row) as [zt|e] eqn:Es; cbn [bind] in H; [|discriminate].
    destruct (getitem2 b i t) as [bt|e]; cbn [bind] in H; [|discriminate].
    cbv zeta in H.
    match type of H with context [upsample_loop ?a1 ?a2 ?a3 ?a4 ?a5 ?a6 ?a7 ?a8] =>
      destruct (upsample_loop a1 a2 a3 a4 a5 a6 a7 a8) as [rest|e] eqn:Er
    end; cbn [bind] in H; [|discriminate].
    injection H as <-. destruct (IH _ _ _ Er) as [Hl Hw]. split; [simpl; lia|].
    intros row' [<-|Hin]; [exact (setrow_Ok_width _ _ _ Es) | exact (Hw _ Hin)].
Qed.

Lemma confidence_Ok b p :
  length b = length p ->
  (forall i (brow prow : vec), nth_error b i = Some brow -> nth_error p i = Some prow ->
     length brow = length prow) ->
  exists c, confidence b p = Ok c.
Proof.
  intros Hl Hrows. unfold confidence.
  match goal with |- context [forallb ?f (combine b p)] =>
    assert (Hf : forallb f (combine b p) = true)
  end.
  { apply forallb_forall. intros [brow prow] Hin. simpl.
    destruct (in_combine_nth _ _ _ _ Hin) as [i [Hb Hp]].
    apply Nat.eqb_eq. exact (Hrows i brow prow Hb Hp). }
  rewrite Hl, Nat.eqb_refl, Hf. eexists. reflexivity.
Qed.

Lemma count_ones_none (brow : vec) t :
  (forall k x, k < t -> nth_error brow k = Some x -> x <> 1%R) -> count_ones (firstn t brow) = 0.
Proof.
  revert brow. induction t as [|t IH]; intros brow H; [reflexivity|].
  destruct brow as [|x brow]; [reflexivity|].
  unfold count_ones in *. simpl.
  rewrite (Reqb_false x 1) by (apply (H 0); [lia | reflexivity]).
  apply IH. intros k y Hk Hy. apply (H (S k) y); [lia | exact Hy].
Qed.

Lemma mapiM_from_ext {A B} (f g : nat -> A -> result B) l : forall i,
  (forall k x, nth_error l k = Some x -> f (i + k) x = g (i + k) x) ->
  mapiM_from f i l = mapiM_from g i l.
Proof.
  induction l as [|a l IH]; intros i H; [reflexivity|].
  simpl. pose proof (H 0 a eq_refl) as Ha. rewrite Nat.add_0_r in Ha. rewrite Ha.
  rewrite (IH (S i)); [reflexivity|].
  intros k x Hk. replace (S i + k) with (i + S k) by lia. exact (H (S k) x Hk).
Qed.

Lemma upsample_loop_last_ignored (bar : list vec) (b b' : tensor2) i L D :
  length b = length b' ->
  (forall brow brow' : vec, nth_error b i = Some brow -> nth_error b' i = Some brow' ->
     length brow = length brow' /\ forall k, k + 1 < L -> nth_error brow k = nth_error brow' k) ->
  forall n t c, t + n <= L -> upsample_loop bar b i L D t c n = upsample_loop bar b' i L D t c n.
Proof.
  intros Hlb Hrows.
  destruct (nth_error b i) as [brow|] eqn:Eb.
  2:{ assert (Eb' : nth_error b' i = None)
        by (apply nth_error_None; apply nth_error_None in Eb; lia).
      intros [|n] t c _; [reflexivity|]. cbn [upsample_loop].
      rewrite (getitem2_None b i t Eb), (getitem2_None b' i t Eb'), Hlb. reflexivity. }
  destruct (nth_error b' i) as [brow'|] eqn:Eb'.
  2:{ apply nth_error_None in Eb'.
      assert (i < length b) by (apply nth_error_Some; rewrite Eb; discriminate). lia. }
  destruct (Hrows brow brow' ltac:(first [exact Eb | reflexivity])
              ltac:(first [exact Eb' | reflexivity])) as [Hl Hagree].
  induction n as [|n IH]; intros t c Htn; [reflexivity|].
  cbn [upsample_loop]. rewrite (getitem2_row b i brow t Eb), (getitem2_row b' i brow' t Eb').
  destruct (getitem bar c) as [row|e]; cbn [bind]; [|reflexivity].
  destruct (setrow D row) as [zt|e]; cbn [bind]; [|reflexivity].
  destruct n as [|n'].
  - destruct (nth_error brow t) as [x|] eqn:E1.
    + destruct (nth_error brow' t) as [x'|] eqn:E2.
      * rewrite (proj2 (getitem_Ok brow t x) E1), (proj2 (getitem_Ok brow' t x') E2).
        reflexivity.
      * apply nth_error_None in E2. assert (t < length brow) by (apply nth_error_Some; congruence). lia.
    + assert (E2 : nth_error brow' t = None) by (apply nth_error_None; apply nth_error_None in E1; lia).
      unfold getitem. rewrite E1, E2, Hl. reflexivity.
  - assert (Hg : getitem brow t = getitem brow' t).
    { unfold getitem. rewrite Hagree by lia. rewrite Hl. reflexivity. }
    rewrite Hg. destruct (getitem brow' t) as [bt|e]; cbn [bind]; [|reflexivity].
    cbv zeta. rewrite IH by lia. reflexivity.
Qed.

Lemma forallb_combine_shape (b b' p : tensor2) : length b = length b' ->
  (forall i (brow brow' : vec), nth_error b i = Some brow -> nth_error b' i = Some brow' ->
     length brow = length brow') ->
  forallb (fun rows : vec * vec => Nat.eqb (length (fst rows)) (length (snd rows))) (combine b p) =
  forallb (fun rows : vec * vec => Nat.eqb (length (fst rows)) (length (snd rows))) (combine b' p).
Proof.
  revert b' p. induction b as [|x b IH]; intros [|x' b'] [|y p] Hl Hr; simpl in *; try discriminate; try reflexivity.
  rewrite (Hr 0 x x' eq_refl eq_refl). f_equal. apply IH; [lia|]. intros i; apply (Hr (S i)).
Qed.


(** Whenever [upsample] returns, its result has shape
    [(bar_z.shape[0], original_L, D)]: one block per compressed batch
    element, [original_L] rows per block, [D] entries per row. *)
Theorem upsample_output_shape bar_z b p original_L D z
  (H : upsample bar_z b p original_L D = Ok z) :
  length z = length bar_z /\
  forall zi, In zi z -> length zi = original_L /\ forall row, In row zi -> length row = D.
Proof.
  unfold upsample in H.
  destruct (mapiM_from _ 0 bar_z) as [z'|e] eqn:E; cbn [bind] in H; [|discriminate].
  destruct (confidence b p); cbn [bind] in H; [|discriminate]. injection H as <-.
  split; [exact (mapiM_from_length _ _ _ _ E)|].
  intros zi Hzi. destruct (mapiM_from_In _ _ _ _ _ E Hzi) as (k & bar & _ & Hf).
  unfold upsample_row in Hf. exact (upsample_loop_shape _ _ _ _ _ _ _ _ _ Hf).
Qed.

(** [upsample_output_shape] on the all-boundary row [b = [1, 1]]. *)
Lemma upsample_output_shape_witness :
  exists z, upsample [[[1];[1]]]%R [[1;1]]%R [[1;6/10]]%R 2 1 = Ok z /\ length z = 1.
Proof.
  assert (E : upsample [[[1];[1]]]%R [[1;1]]%R [[1;6/10]]%R 2 1 = Ok [[[1];[1]]]%R).
  { unfold upsample, upsample_row, confidence, conf_entry. rdecide. reflexivity. }
  exists [[[1];[1]]]%R. split; [exact E|].
  exact (proj1 (upsample_output_shape _ _ _ _ _ _ E)).
Defined.

(** [upsample] returns a value whenever the compressed rows have width
    [D], every row of [b] covers [original_L] positions with
    [chunk_idx < L'] (the compressed length of that element) at every
    position, and [b] and [p] have one shape. *)
Theorem upsample_succeeds_in_range bar_z b p original_L D
  (Hwidth : forall (bar : list vec) row, In bar bar_z -> In row bar -> length row = D)
  (Hb : forall i (bar : list vec), nth_error bar_z i = Some bar ->
     exists brow : vec, nth_error b i = Some brow /\ original_L <= length brow /\
       forall t, t < original_L -> code_chunk_index brow t < length bar)
  (Hbp : length b = length p)
  (Hrows : forall i (brow prow : vec), nth_error b i = Some brow -> nth_error p i = Some prow ->
     length brow = length prow) :
  exists z, upsample bar_z b p original_L D = Ok z.
Proof.
  unfold upsample.
  destruct (proj2 (mapiM_from_Ok_iff (fun i bar => upsample_row bar b i original_L D)
                     bar_z 0)) as [z Hz].
  { intros k bar Hk. simpl. destruct (Hb k bar Hk) as (brow & Hbk & Hlen & Hidx).
    unfold upsample_row.
    pose proof (upsample_loop_char bar b k brow original_L D
                  (fun row Hr => Hwidth bar row (nth_error_In _ _ Hk) Hr) Hbk Hlen
                  original_L 0 0 ltac:(lia) ltac:(lia)) as C.
    destruct (upsample_loop bar b k original_L D 0 0 original_L) as [zi|e].
    - eauto.
    - destruct C as [_ (j & Hj & Heq)]. specialize (Hidx j Hj).
      unfold code_chunk_index in Hidx. simpl in Heq. lia. }
  rewrite Hz. cbn [bind]. destruct (confidence_Ok b p Hbp Hrows) as [c Hc].
  rewrite Hc. eexists. reflexivity.
Qed.

(** [upsample_succeeds_in_range] on two chunks and [b = [1, 0, 0, 1]]. *)
Lemma upsample_succeeds_in_range_witness :
  exists z, upsample [[[1];[3]]]%R [[1;0;0;1]]%R [[1;2/10;3/10;6/10]]%R 4 1 = Ok z.
Proof.
  apply upsample_succeeds_in_range.
  - intros bar row [<-|[]] Hr. simpl in Hr. destruct Hr as [<-|[<-|[]]]; reflexivity.
  - intros [|i] bar Hi; [|destruct i; discriminate]. simpl in Hi. injection Hi as <-.
    exists [1;0;0;1]%R. split; [reflexivity|]. split; [simpl; lia|].
    intros t Ht. unfold code_chunk_index, count_ones.
    destruct t as [|[|[|[|t]]]]; [| | | | lia]; rdecide; simpl; lia.
  - reflexivity.
  - intros [|i] brow prow Hb Hp; [|destruct i; discriminate].
    simpl in Hb, Hp. injection Hb as <-. injection Hp as <-. reflexivity.
Defined.

(** When no position before the last of row [b[i]] holds [1], every
    position of [upsample]'s output block [i] is the first compressed
    row [bar_z[i, 0]]. *)
Theorem upsample_without_boundaries_repeats_first_chunk bar_z b p original_L D z i
  (bar : list vec) (brow : vec) (zi : list vec)
  (Hup : upsample bar_z b p original_L D = Ok z)
  (Hbar : nth_error bar_z i = Some bar) (Hbrow : nth_error b i = Some brow)
  (Hzi : nth_error z i = Some zi)
  (Hwidth : forall row, In row bar -> length row = D) (Hlen : original_L <= length brow)
  (Hnob : forall k x, k + 1 < original_L -> nth_error brow k = Some x -> x <> 1%R) :
  forall t, t < original_L -> nth_error zi t = nth_error bar 0.
Proof.
  intros t Ht.
  destruct (upsample_Ok_rows _ _ _ _ _ _ Hup i bar Hbar) as (zi' & Hz' & Hrow).
  assert (zi' = zi) as -> by (unfold vec in *; congruence).
  pose proof (upsample_loop_char bar b i brow original_L D Hwidth Hbrow Hlen original_L 0 0
                ltac:(lia) ltac:(lia)) as C.
  unfold upsample_row in Hrow. rewrite Hrow in C. destruct C as [_ C].
  destruct (C t Ht) as [_ Hnth]. simpl in Hnth. rewrite Hnth.
  rewrite (count_ones_none brow t); [reflexivity|].
  intros k x Hk Hx. apply (Hnob k x); [lia | exact Hx].
Qed.

(** [upsample_without_boundaries_repeats_first_chunk] on [b = [0, 0, 1]],
    whose only boundary is at the last position. *)
Lemma upsample_without_boundaries_repeats_first_chunk_witness :
  nth_error [[5];[5];[5]]%R 2 = nth_error [[5];[6]]%R 0.
Proof.
  assert (E : upsample [[[5];[6]]]%R [[0;0;1]]%R [[4/10;3/10;9/10]]%R 3 1 = Ok [[[5];[5];[5]]]%R).
  { unfold upsample, upsample_row, confidence, conf_entry. rdecide. reflexivity. }
  apply (upsample_without_boundaries_repeats_first_chunk _ _ _ _ _ _ 0 _ [0;0;1]%R _
           E eq_refl eq_refl eq_refl).
  - intros row Hr. simpl in Hr. destruct Hr as [<-|[<-|[]]]; reflexivity.
  - simpl. lia.
  - intros [|[|k]] x Hk Hx; simpl in Hx; [injection Hx as <-; lra | injection Hx as <-; lra | lia].
  - lia.
Defined.

(** The value of [b[i, original_L - 1]] never changes [upsample]'s
    result: two boundary tensors of one shape that agree on every
    position before the last give the same result. *)
Theorem upsample_ignores_last_boundary bar_z b b' p original_L D
  (Hlen : length b = length b')
  (Hrows : forall i (brow brow' : vec), nth_error b i = Some brow -> nth_error b' i = Some brow' ->
     length brow = length brow' /\
     forall k, k + 1 < original_L -> nth_error brow k = nth_error brow' k) :
  upsample bar_z b p original_L D = upsample bar_z b' p original_L D.
Proof.
  unfold upsample.
  rewrite (mapiM_from_ext _ (fun i bar => upsample_row bar b' i original_L D)).
  2:{ intros k bar _. simpl. unfold upsample_row.
      apply upsample_loop_last_ignored; [exact Hlen | exact (Hrows k) | lia]. }
  destruct (mapiM_from _ 0 bar_z) as [z|e]; cbn [bind]; [|reflexivity].
  unfold confidence.
  match goal with |- context [forallb ?f (combine b p)] =>
    replace (forallb f (combine b p)) with (forallb f (combine b' p))
      by (symmetry; exact (forallb_combine_shape b b' p Hlen
                             (fun i x y Hx Hy => proj1 (Hrows i x y Hx Hy))))
  end.
  rewrite Hlen. destruct (_ && _); reflexivity.
Qed.

(** [upsample_ignores_last_boundary] on [b = [1, 0]] against [[1, 1]]. *)
Lemma upsample_ignores_last_boundary_witness :
  upsample [[[1];[2]]]%R [[1;0]]%R [[1;3/10]]%R 2 1 = upsample [[[1];[2]]]%R [[1;1]]%R [[1;3/10]]%R 2 1.
Proof.
  apply upsample_ignores_last_boundary; [reflexivity|].
  intros [|i] brow brow' Hb Hb'; [|destruct i; discriminate].
  simpl in Hb, Hb'. injection Hb as <-. injection Hb' as <-. split; [reflexivity|].
  intros [|k] Hk; [reflexivity | lia].
Defined.



(** *** Smoother *)

Lemma smooth_loop_Ok_iff P bi zs : forall t prev,
  (exists rest, smooth_loop P bi zs t prev = Ok rest) <->
  (zs = [] \/ exists Prow : vec, nth_error P bi = Some Prow /\ t + length zs <= length Prow).
Proof.
  induction zs as [|z zs IH]; intros t prev; split.
  - intros _. left. reflexivity.
  - intros _. exists []. reflexivity.
  - intros [rest H]. right. cbn [smooth_loop] in H.
    destruct (getitem2 P bi t) as [pt|e] eqn:Ep; cbn [bind] in H; [|discriminate].
    apply getitem2_Ok in Ep as (Prow & EP & Et).
    assert (Ht : t < length Prow) by (apply nth_error_Some; rewrite Et; discriminate).
    cbv zeta in H.
    match type of H with context [smooth_loop ?a1 ?a2 ?a3 ?a4 ?a5] =>
      destruct (smooth_loop a1 a2 a3 a4 a5) as [rest'|e] eqn:Er end; cbn [bind] in H; [|discriminate].
    exists Prow. split; [exact EP|].
    destruct (proj1 (IH _ _) (ex_intro _ rest' Er)) as [->|(Prow' & EP' & Hle)].
    + simpl. lia.
    + rewrite EP in EP'. injection EP' as <-. simpl. lia.
  - intros [H|(Prow & EP & Hle)]; [discriminate|]. cbn [smooth_loop].
    simpl in Hle.
    destruct (nth_error Prow t) as [pt|] eqn:Et; [|apply nth_error_None in Et; lia].
    rewrite (proj2 (getitem2_Ok P bi t pt) (ex_intro _ Prow (conj EP Et))). cbn [bind].
    cbv zeta.
    match goal with |- context [smooth_loop P bi zs (S t) ?v] =>
      destruct (proj2 (IH (S t) v)) as [rest Hr]
    end.
    { destruct zs as [|z1 zs']; [left; reflexivity|]. right. exists Prow. split; [exact EP | lia]. }
    rewrite Hr. eexists. reflexivity.
Qed.

Lemma smooth_row_Ok_iff P bi (zrow : list vec) :
  (exists orow, smooth_row P bi zrow = Ok orow) <->
  zrow <> [] /\
  (2 <= length zrow -> exists Prow : vec, nth_error P bi = Some Prow /\ length zrow <= length Prow).
Proof.
  unfold smooth_row. destruct zrow as [|z0 zs].
  - split; [intros [y H]; discriminate | intros [H _]; congruence].
  - cbn [getitem nth_error bind tl].
    pose proof (smooth_loop_Ok_iff P bi zs 1 z0) as I. split.
    + intros [y H].
      destruct (smooth_loop P bi zs 1 z0) as [rest|e] eqn:E; cbn [bind] in H; [|discriminate].
      split; [discriminate|]. intros H2.
      destruct (proj1 I (ex_intro _ rest eq_refl)) as [->|(Prow & EP & Hle)].
      * simpl in H2. lia.
      * exists Prow. split; [exact EP | simpl; lia].
    + intros [_ H2]. destruct (proj2 I) as [rest E].
      { destruct zs as [|z1 zs']; [left; reflexivity|]. right.
        destruct (H2 ltac:(simpl; lia)) as (Prow & EP & Hle).
        exists Prow. split; [exact EP | simpl in *; lia]. }
      rewrite E. eexists. reflexivity.
Qed.

Lemma vadd_length (u v : vec) : length (vadd u v) = Nat.min (length u) (length v).
Proof. unfold vadd. rewrite length_map, length_combine. reflexivity. Qed.

Lemma vscale_length a (v : vec) : length (vscale a v) = length v.
Proof. unfold vscale. apply length_map. Qed.

Lemma smooth_loop_width P bi D zs : forall t (prev : vec) rest,
  length prev = D -> (forall zt, In zt zs -> length zt = D) ->
  smooth_loop P bi zs t prev = Ok rest -> forall row, In row rest -> length row = D.
Proof.
  induction zs as [|z zs IH]; intros t prev rest Hprev Hzs H; cbn [smooth_loop] in H.
  - injection H as <-. intros _ [].
  - destruct (getitem2 P bi t) as [pt|e]; cbn [bind] in H; [|discriminate].
    cbv zeta in H.
    match type of H with context [smooth_loop ?a1 ?a2 ?a3 ?a4 ?a5] =>
      destruct (smooth_loop a1 a2 a3 a4 a5) as [rest'|e] eqn:Er end; cbn [bind] in H; [|discriminate].
    injection H as <-.
    assert (Hv : length (vadd (vscale pt z) (vscale (1 - pt) prev)) = D).
    { rewrite vadd_length, !vscale_length, Hprev, (Hzs z (or_introl eq_refl)). apply Nat.min_id. }
    intros row [<-|Hin]; [exact Hv|].
    exact (IH _ _ _ Hv (fun zt Hz => Hzs zt (or_intror Hz)) Er row Hin).
Qed.

Lemma vadd_scale_one (u v : vec) : length u <= length v -> vadd (vscale 1 u) (vscale (1 - 1) v) = u.
Proof.
  revert v. induction u as [|a u IH]; intros [|c v] Hl; simpl in Hl; try reflexivity; try lia.
  unfold vadd, vscale in *. simpl. f_equal; [ring|]. apply IH. lia.
Qed.

(** [smoothing_module] returns a value exactly when every batch element
    has at least one position (the read [z_hat[b, 0]]) and, for an
    element with [L >= 2] positions, the row [P[b]] exists and has at
    least [L] entries; otherwise it raises. *)
Theorem smoothing_module_Ok_iff z_hat P :
  (exists out, smoothing_module z_hat P = Ok out) <->
  (forall bi (zrow : list vec), nth_error z_hat bi = Some zrow ->
     zrow <> [] /\
     (2 <= length zrow -> exists Prow : vec, nth_error P bi = Some Prow /\ length zrow <= length Prow)).
Proof.
  unfold smoothing_module. split.
  - intros Hex bi zrow Hz. apply smooth_row_Ok_iff.
    exact (proj1 (mapiM_from_Ok_iff _ _ 0) Hex bi zrow Hz).
  - intros H. apply (proj2 (mapiM_from_Ok_iff _ _ 0)). intros bi zrow Hz.
    apply smooth_row_Ok_iff. exact (H bi zrow Hz).
Qed.

(** Where [P[b, t] = 1], [smoothing_module] resets: the output row at
    position [t] is [z_hat[b, t]] itself, whatever came before, provided
    the rows of [z_hat[b]] have one width. *)
Theorem smoothing_resets_at_full_confidence z_hat P out bi t D (zrow orow : list vec)
  (H : smoothing_module z_hat P = Ok out)
  (Hz : nth_error z_hat bi = Some zrow) (Ho : nth_error out bi = Some orow)
  (Hw : forall zt, In zt zrow -> length zt = D)
  (Hp : getitem2 P bi t = Ok 1%R) :
  nth_error orow t = nth_error zrow t.
Proof.
  unfold smoothing_module in H.
  destruct (mapiM_from_Ok _ _ 0 out H bi zrow Hz) as [orow' [Hrow Ho']].
  assert (orow' = orow) as -> by (unfold vec in *; congruence). simpl in Hrow.
  unfold smooth_row in Hrow.
  destruct zrow as [|z0 zs]; [discriminate|]. cbn [getitem nth_error bind tl] in Hrow.
  destruct (smooth_loop P bi zs 1 z0) as [rest|e] eqn:Er; cbn [bind] in Hrow; [|discriminate].
  injection Hrow as <-.
  destruct t as [|j]; [reflexivity|]. simpl.
  destruct (smooth_loop_Ok P bi zs 1 z0 rest Er) as [Hl Hn].
  destruct (nth_error zs j) as [zj|] eqn:Ezj.
  - destruct (Hn j zj Ezj) as (pj & Hpj & Hr).
    replace (1 + j) with (S j) in Hpj by lia. rewrite Hp in Hpj. injection Hpj as <-.
    rewrite Hr. f_equal. apply vadd_scale_one.
    assert (Hzj : length zj = D) by (apply Hw; right; exact (nth_error_In _ _ Ezj)).
    assert (Hprev : length (nth j (z0 :: rest) []) = D).
    { destruct j as [|j']; [apply Hw; left; reflexivity|]. simpl.
      assert (Hj : S j' < length zs) by (apply nth_error_Some; rewrite Ezj; discriminate).
      apply (smooth_loop_width P bi D zs 1 z0 rest).
      - apply Hw. left. reflexivity.
      - intros zt Hzt. apply Hw. right. exact Hzt.
      - exact Er.
      - apply nth_In. lia. }
    lia.
  - rewrite (proj2 (nth_error_None rest j)); [reflexivity|]. apply nth_error_None in Ezj. lia.
Qed.

(** [smoothing_resets_at_full_confidence] at position 1 of a row with
    [P[0] = [1, 1]]. *)
Lemma smoothing_resets_at_full_confidence_witness :
  nth_error [[3]; [1 * 5 + (1 - 1) * 3]]%R 1 = nth_error [[3];[5]]%R 1.
Proof.
  apply (smoothing_resets_at_full_confidence [[[3];[5]]]%R [[1;1]]%R
           [[[3]; [1 * 5 + (1 - 1) * 3]]]%R 0 1 1 [[3];[5]]%R _ ltac:(reflexivity) eq_refl eq_refl).
  - intros zt Hzt. simpl in Hzt. destruct Hzt as [<-|[<-|[]]]; reflexivity.
  - reflexivity.
Defined.

(** *** The compression loop and [HNet.forward] *)

Lemma compress_batch h B n : forall (xs : list tensor3) ps xs' ps',
  xs <> [] ->
  (forall x, In x xs -> length x = B) ->
  (forall p b P, In (p, b, P) ps -> length p = B /\ length b = B /\ length P = B) ->
  compress h n xs ps = Ok (xs', ps') ->
  length xs' = length xs + n /\ length ps' = length ps + n /\ firstn (length xs) xs' = xs /\
  (forall x, In x xs' -> length x = B) /\
  (forall p b P, In (p, b, P) ps' -> length p = B /\ length b = B /\ length P = B).
Proof.
  induction n as [|n IH]; intros xs ps xs' ps' Hne Hx Hps H; cbn [compress] in H.
  - injection H as <- <-. rewrite !Nat.add_0_r, firstn_all. auto.
  - destruct (linear3 (encoder h) (last xs [])) as [x_hat|e] eqn:E1; cbn [bind] in H; [|discriminate].
    destruct (router_forward (router h) x_hat) as [[p b]|e] eqn:E2; cbn [bind] in H; [|discriminate].
    destruct (downsample x_hat b p) as [[x_next P_next]|e] eqn:E3; cbn [bind] in H; [|discriminate].
    assert (Hlast : length x_hat = B).
    { rewrite (proj1 (linear3_shape _ _ _ E1)). apply Hx.
      destruct (exists_last Hne) as (l' & a & Ha). rewrite Ha, last_last.
      apply in_or_app. right. left. reflexivity. }
    destruct (router_linear _ _ _ _ E2) as (q & k & Hq & Hk).
    destruct (router_rows _ _ _ _ _ _ E2 Hq Hk) as (Hb & Hp & _).
    destruct (downsample_rows _ _ _ _ _ E3) as (HX & HP & _).
    destruct (IH (xs ++ [x_next]) (ps ++ [(p, b, P_next)]) xs' ps') as (H1 & H2 & H3 & H4 & H5).
    + intros Hnil. destruct xs; discriminate.
    + intros x Hin. apply in_app_or in Hin as [Hin|[<-|[]]]; [exact (Hx x Hin) | unfold tensor3, tensor2, vec in *; lia].
    + intros p' b' P' Hin. apply in_app_or in Hin as [Hin|[Heq|[]]]; [exact (Hps _ _ _ Hin)|].
      injection Heq as <- <- <-. subst b. rewrite length_map. unfold tensor3, tensor2, vec in *; lia.
    + exact H.
    + rewrite length_app in H1, H2. simpl in H1, H2. split; [lia|]. split; [lia|].
      split; [|auto].
      replace (length xs) with (Nat.min (length xs) (length (xs ++ [x_next])))
        by (rewrite length_app; simpl; lia).
      rewrite <- firstn_firstn, H3.
      rewrite firstn_app, Nat.sub_diag, firstn_all.
      simpl. apply app_nil_r.
Qed.

(** [HNet]'s compression loop keeps the batch: after [num_stages]
    iterations from [xs = [x0]], [ps = []], it holds [num_stages + 1]
    tensors with [xs[0] = x0] and [num_stages] triples [(p, b, P_next)],
    and every one of them has the batch size of [x0]. *)
Theorem compress_keeps_batch h x0 xs ps
  (H : compress h (num_stages h) [x0] [] = Ok (xs, ps)) :
  length xs = S (num_stages h) /\ length ps = num_stages h /\ hd_error xs = Some x0 /\
  (forall x, In x xs -> length x = length x0) /\
  (forall p b P, In (p, b, P) ps -> length p = length x0 /\ length b = length x0 /\ length P = length x0).
Proof.
  destruct (compress_batch h (length x0) (num_stages h) [x0] [] xs ps) as (H1 & H2 & H3 & H4 & H5).
  - discriminate.
  - intros x [<-|[]]. reflexivity.
  - intros p b P [].
  - exact H.
  - split; [exact H1|]. split; [exact H2|]. split; [|auto].
    destruct xs as [|x xs]; [discriminate|]. simpl in H3. injection H3 as ->. reflexivity.
Qed.

(** [compress_keeps_batch] on the one-stage model and a [(1, 1, 1)]
    input. *)
Lemma compress_keeps_batch_witness :
  exists xs ps, compress hnet1 (num_stages hnet1) [x1] [] = Ok (xs, ps) /\ length xs = 2.
Proof.
  assert (Hc : compress hnet1 (num_stages hnet1) [x1] [] = Ok ([x1; [[[1 * 1 + 0 + 0]%R]]],
    [([[1%R]], [[1%R]], [[1%R]])])).
  { unfold compress, hnet1, router_forward, downsample, x1, select_row, gather,
      nonzero, max_len, linear3, linear_vec.
    rdecide. reflexivity. }
  do 2 eexists. split; [exact Hc|].
  exact (proj1 (compress_keeps_batch _ _ _ _ Hc)).
Defined.

(** With [num_stages = 0], [HNet.forward] runs no compression and no
    decompression: its result is the main network applied to the input,
    [self.main(x0)], including the main network's exceptions. *)
Theorem forward_without_stages h x0 (Hn : num_stages h = 0) :
  forward h x0 = linear3 (main h) x0.
Proof.
  unfold forward. rewrite Hn. cbn [compress bind last].
  destruct (linear3 (main h) x0) as [z|e]; reflexivity.
Qed.

(** [forward_without_stages] on a zero-stage model of width 1. *)
Lemma forward_without_stages_witness :
  forward (mkHNet 0 router1 id1 id1 id1 id1) x1 = linear3 id1 x1.
Proof. exact (forward_without_stages (mkHNet 0 router1 id1 id1 id1 id1) x1 eq_refl). Defined.
